(** * The otel command-line entry point and its error values

    A shallow embedding of [tool/otel/main.go] (package [main]) and of the
    [errc] package (the [PlentifulError] type), together with the parts of
    the Go runtime they rest on: byte strings, the [strings] helpers, a
    store of error objects addressed by pointers, and a directory tree with
    write permissions for [os.MkdirAll] and [os.RemoveAll].

    Collaborators living in other packages ([config], [preprocess],
    [instrument], [util]) are the fields of a [World] record; the process
    itself is a computation in a state monad that can halt early
    ([os.Exit], [util.LogFatal], a run-time panic). *)

From Stdlib Require Import ZArith Ascii String.
From stdpp Require Import gmap strings list fin_maps.

Local Open Scope string_scope.
Local Set Warnings "-register-all".

(** ** Go strings

    A Go [string] is a sequence of bytes, as is a Rocq [string]. *)

Module Strings.

(** [s[i:]]: the bytes of [s] from index [i] on. *)
Fixpoint drop_bytes (i : nat) (s : string) : string :=
  match i, s with
  | O, _ => s
  | S _, EmptyString => EmptyString
  | S j, String _ t => drop_bytes j t
  end.

(** [strings.HasSuffix]:
    [len(s) >= len(suffix) && s[len(s)-len(suffix):] == suffix]. *)
Definition HasSuffix (s suffix : string) : bool :=
  (String.length suffix <=? String.length s)%nat
  && String.eqb (drop_bytes (String.length s - String.length suffix) s) suffix.

(** [strings.Join(elems, sep)]. *)
Fixpoint Join (elems : list string) (sep : string) : string :=
  match elems with
  | [] => ""
  | [x] => x
  | x :: rest => x ++ sep ++ Join rest sep
  end.

(** The byte length of the UTF-8 sequence starting with byte [c] and
    followed by [rest], as [unicode/utf8] decodes it: an invalid or
    truncated sequence counts as one byte. *)
Definition rune_size (c : ascii) (rest : string) : nat :=
  let b := N_of_ascii c in
  let within (lo hi : N) (o : option ascii) : bool :=
    match o with
    | Some x => (lo <=? N_of_ascii x)%N && (N_of_ascii x <=? hi)%N
    | None => false
    end in
  let multi (size : nat) (lo hi : N) : nat :=
    if (String.length rest <? size - 1)%nat then 1%nat
    else if negb (within lo hi (String.get 0 rest)) then 1%nat
    else if (size =? 2)%nat then 2%nat
    else if negb (within 128%N 191%N (String.get 1 rest)) then 1%nat
    else if (size =? 3)%nat then 3%nat
    else if negb (within 128%N 191%N (String.get 2 rest)) then 1%nat
    else 4%nat in
  if (b <? 128)%N then 1%nat
  else if (b <? 194)%N then 1%nat
  else if (b <? 224)%N then multi 2%nat 128%N 191%N
  else if (b =? 224)%N then multi 3%nat 160%N 191%N
  else if (b <? 237)%N then multi 3%nat 128%N 191%N
  else if (b =? 237)%N then multi 3%nat 128%N 159%N
  else if (b <? 240)%N then multi 3%nat 128%N 191%N
  else if (b =? 240)%N then multi 4%nat 144%N 191%N
  else if (b <? 244)%N then multi 4%nat 128%N 191%N
  else if (b =? 244)%N then multi 4%nat 128%N 143%N
  else 1%nat.

(** [utf8.RuneCountInString]; [skip] is the number of bytes still
    belonging to the rune counted last. *)
Fixpoint rune_count_from (skip : nat) (s : string) : nat :=
  match s with
  | EmptyString => O
  | String c t =>
      match skip with
      | S k => rune_count_from k t
      | O => S (rune_count_from (rune_size c t - 1) t)
      end
  end.

Definition RuneCountInString (s : string) : nat := rune_count_from 0 s.

Fixpoint spaces (n : nat) : string :=
  match n with
  | O => ""
  | S k => String " " (spaces k)
  end.

(** The verb [%-11s] of [fmt]: the operand, then blanks up to a width of
    eleven runes; a longer operand is not cut. *)
Definition pad11 (s : string) : string :=
  s ++ spaces (11 - RuneCountInString s).

(** [strings.ReplaceAll(s, old, new)] for a non-empty [old]: occurrences
    are replaced from left to right without overlap. [skip] is the number
    of bytes of the occurrence found last that are still to be dropped. *)
Fixpoint replace_from (old new : string) (skip : nat) (s : string) : string :=
  match s with
  | EmptyString => EmptyString
  | String c t =>
      match skip with
      | S k => replace_from old new k t
      | O =>
          if String.prefix old s
          then new ++ replace_from old new (String.length old - 1) t
          else String c (replace_from old new 0 t)
      end
  end.

(** For an empty [old], Go inserts [new] before every rune and at the
    end. *)
Fixpoint insert_from (new : string) (skip : nat) (s : string) : string :=
  match s with
  | EmptyString => new
  | String c t =>
      match skip with
      | S k => String c (insert_from new k t)
      | O => new ++ String c (insert_from new (rune_size c t - 1) t)
      end
  end.

Definition ReplaceAll (s old new : string) : string :=
  match old with
  | EmptyString => insert_from new 0 s
  | _ => replace_from old new 0 s
  end.

End Strings.

Import Strings.

(** ** Values of the running process *)

(** A pointer to an error object in the store; a pointer that the store
    does not hold stands for [nil]. *)
Abbreviation loc := positive (only parsing).

(** [errc.PlentifulError]. A Go map is [nil] until it is made: [None] is
    the nil map, which can be read but not written. *)
Record PlentifulError := mkPlentifulError {
  Reason : string;
  Cause : string;
  Details : option (gmap string string)
}.

(** An error of some other dynamic type: only its identity and the text
    of its [Error()] method matter here. *)
Record ForeignError := mkForeignError {
  foreign_id : positive;
  foreign_message : string
}.

(** A non-nil value of the interface type [error]; the nil interface is
    [None : option error]. *)
Inductive error :=
| ErrPlentiful (p : loc)
| ErrForeign (f : ForeignError).

(** Modelled from the spec: the type [util.RunPhase] and its values are
    declared in package [util], which is not part of the sources at hand;
    the spec lists the phases [Unset], [Preprocess] and [Instrument]. *)
Inductive RunPhase := PUnset | PPreprocess | PInstrument.

Global Instance RunPhase_eq_dec : EqDecision RunPhase.
Proof. solve_decision. Defined.

(** A file-system object below the working directory: a regular file, or
    a directory with its write permission and its entries by name. *)
Inductive node :=
| File
| Dir (writable : bool) (entries : gmap string node).

(** A relative path, component by component. *)
Abbreviation path := (list string) (only parsing).

(** Errors of the system calls behind package [os]. *)
Inductive Errno := ENOTDIR | EACCES.

(** [fs.PathError]. *)
Record PathError := mkPathError {
  Op : string;
  Path : string;
  Err : Errno
}.

(** The state a run of the tool reads and writes: the package-level
    variables [util.rp] and [usage], the files below the working
    directory, the error objects allocated so far, and the text written
    to the two standard streams. *)
Record State := mkState {
  rp : RunPhase;
  usage : string;
  fs : node;
  heap : gmap loc PlentifulError;
  stdout : string;
  stderr : string
}.

Definition set_rp (v : RunPhase) (st : State) : State :=
  mkState v (usage st) (fs st) (heap st) (stdout st) (stderr st).
Definition set_usage (v : string) (st : State) : State :=
  mkState (rp st) v (fs st) (heap st) (stdout st) (stderr st).
Definition set_fs (v : node) (st : State) : State :=
  mkState (rp st) (usage st) v (heap st) (stdout st) (stderr st).
Definition set_heap (v : gmap loc PlentifulError) (st : State) : State :=
  mkState (rp st) (usage st) (fs st) v (stdout st) (stderr st).
Definition set_stdout (v : string) (st : State) : State :=
  mkState (rp st) (usage st) (fs st) (heap st) v (stderr st).
Definition set_stderr (v : string) (st : State) : State :=
  mkState (rp st) (usage st) (fs st) (heap st) (stdout st) v.

(** How a process ends before [main] returns. *)
Inductive outcome :=
| Exit (code : Z)
| LogFatal (message : string)
| Panic (reason : string).

Inductive result (A : Type) :=
| Val (a : A)
| Halt (o : outcome).
Arguments Val {A} a.
Arguments Halt {A} o.

(** A computation of the process: it runs on a state and either yields a
    value or halts the process, and leaves a state behind. *)
Definition M (A : Type) : Type := State → result A * State.

Global Instance M_ret : MRet M := λ A a st, (Val a, st).

Global Instance M_bind : MBind M := λ A B f m st,
  match m st with
  | (Val a, st') => f a st'
  | (Halt o, st') => (Halt o, st')
  end.

Definition get : M State := λ st, (Val st, st).
Definition modify (f : State → State) : M unit := λ st, (Val tt, f st).
Definition halt {A} (o : outcome) : M A := λ st, (Halt o, st).

(** ** The surroundings of the tool

    Everything the entry point takes from outside [main.go] and [errc]:
    the process environment, constants of other packages, and the
    handlers of the sub-commands. *)
Record World := mkWorld {
  (** [os.Args]. *)
  os_Args : list string;
  (** [os.Getenv("PWD")]. *)
  env_PWD : string;
  (** [runtime.GOOS], [runtime.GOARCH], [runtime.Version()]. *)
  runtime_GOOS : string;
  runtime_GOARCH : string;
  runtime_Version : string;
  (** [debug.Stack()], at the moment an error is made. *)
  debug_Stack : State → string;
  (** The order in which a [range] loop visits a map: Go leaves it open. *)
  range_order : gmap string string → list (string * string);
  (** [config.ToolVersion], [util.GetLoggerPath()], [util.GetToolName()]. *)
  config_ToolVersion : string;
  util_GetLoggerPath : string;
  util_GetToolName : string;
  (** [util.TempBuildDir], and the directory names that the constants
      [util.PPreprocess] and [util.PInstrument] stand for. *)
  util_TempBuildDir : path;
  util_PPreprocess : string;
  util_PInstrument : string;
  (** The handlers: [config.InitConfig], [config.PrintVersion],
      [config.Configure], [preprocess.Preprocess],
      [instrument.Instrument]. *)
  config_InitConfig : M (option error);
  config_PrintVersion : M (option error);
  config_Configure : M (option error);
  preprocess_Preprocess : M (option error);
  instrument_Instrument : M (option error)
}.

(** Every [range] loop visits each entry of the map once. *)
Definition range_fair (W : World) : Prop :=
  ∀ m, range_order W m ≡ₚ map_to_list m.

(** ** Package [os] on the directory tree *)

Module os.

Definition Errno_Error (e : Errno) : string :=
  match e with
  | ENOTDIR => "not a directory"
  | EACCES => "permission denied"
  end.

(** The method [Error] of [PathError]. *)
Definition PathError_Error (e : PathError) : string :=
  Op e ++ " " ++ Path e ++ ": " ++ Errno_Error (Err e).

(** The object a path leads to, if any. *)
Fixpoint lookup_path (p : path) (n : node) : option node :=
  match p with
  | [] => Some n
  | c :: p' =>
      match n with
      | File => None
      | Dir _ es => es !! c ≫= lookup_path p'
      end
  end.

(** [os.MkdirAll(path, 0777)] below the directory [n], where [pre] is the
    part of the path already walked. Directories on the way that exist
    are kept; a missing one is made, writable and empty, when its parent
    can be written; a regular file in the way is an error. *)
Fixpoint mkdir_all (pre p : path) (n : node) : option PathError * node :=
  match n with
  | File => (Some (mkPathError "mkdir" (Join pre "/") ENOTDIR), n)
  | Dir w es =>
      match p with
      | [] => (None, n)
      | c :: p' =>
          match es !! c with
          | Some child =>
              let '(r, child') := mkdir_all (pre ++ [c]) p' child in
              (r, Dir w (<[c := child']> es))
          | None =>
              if w then
                let '(r, child') := mkdir_all (pre ++ [c]) p' (Dir true ∅) in
                (r, Dir w (<[c := child']> es))
              else (Some (mkPathError "mkdir" (Join (pre ++ [c]) "/") EACCES), n)
          end
      end
  end.

(** Whether an object can be unlinked from a writable parent as it
    stands: a regular file, or a directory without entries. *)
Definition removable (n : node) : bool :=
  match n with
  | File => true
  | Dir _ es => bool_decide (es = ∅)
  end.

(** What is left of an object after everything in it that can be removed
    has been removed: an entry goes when its directory is writable and
    nothing is left inside the entry itself. *)
Fixpoint purge (n : node) : node :=
  match n with
  | File => File
  | Dir w es =>
      Dir w (omap (λ child,
                     let child' := purge child in
                     if w && removable child' then None else Some child') es)
  end.

(** [os.RemoveAll(path)] below the directory [n]: a path that does not
    exist is not an error; otherwise everything that can be removed is
    removed, and the call fails when something is left. *)
Fixpoint remove_all (whole p : path) (n : node) : option PathError * node :=
  match p with
  | [] => (None, n)
  | c :: p' =>
      match n with
      | File => (Some (mkPathError "unlinkat" (Join whole "/") ENOTDIR), n)
      | Dir w es =>
          match es !! c with
          | None => (None, n)
          | Some child =>
              match p' with
              | [] =>
                  let child' := purge child in
                  if w && removable child' then (None, Dir w (delete c es))
                  else (Some (mkPathError "unlinkat" (Join whole "/") EACCES),
                        Dir w (<[c := child']> es))
              | _ :: _ =>
                  let '(r, child') := remove_all whole p' child in
                  (r, Dir w (<[c := child']> es))
              end
          end
      end
  end.

(** Writing a new regular file, as any program running between two calls
    of the tool may do: it needs a writable directory to put it in. *)
Fixpoint write_file (p : path) (n : node) : node :=
  match n with
  | File => n
  | Dir w es =>
      match p with
      | [] => n
      | [c] =>
          match es !! c with
          | None => if w then Dir w (<[c := File]> es) else n
          | Some _ => n
          end
      | c :: p' =>
          match es !! c with
          | None => n
          | Some child => Dir w (<[c := write_file p' child]> es)
          end
      end
  end.

Definition MkdirAll (p : path) : M (option PathError) := λ st,
  let '(r, n) := mkdir_all [] p (fs st) in (Val r, set_fs n st).

Definition RemoveAll (p : path) : M (option PathError) := λ st,
  let '(r, n) := remove_all p p (fs st) in (Val r, set_fs n st).

Definition Exit {A} (code : Z) : M A := halt (Exit code).

End os.

(** ** Package [errc] *)

Module errc.

(** Reading through a pointer: a nil pointer stops the process. *)
Definition deref (p : loc) : M PlentifulError := λ st,
  match heap st !! p with
  | Some e => (Val e, st)
  | None => (Halt (Panic "invalid memory address or nil pointer dereference"), st)
  end.

Definition store (p : loc) (e : PlentifulError) : M unit :=
  modify (λ st, set_heap (<[p := e]> (heap st)) st).

(** [&PlentifulError{...}]: a new object at an address not in use. *)
Definition alloc (e : PlentifulError) : M loc := λ st,
  let p := fresh (dom (heap st)) in
  (Val p, set_heap (<[p := e]> (heap st)) st).

(** [func (e *PlentifulError) Error() string]. *)
Definition Error (e : loc) : M string :=
  pe ← deref e;
  mret (Reason pe ++ String "010" "" ++ Cause pe).

(** [func New(message string) *PlentifulError]. *)
Definition New (W : World) (message : string) : M loc :=
  e ← alloc (mkPlentifulError message "" (Some ∅));
  st ← get;
  let stackTrace := debug_Stack W st in
  pe ← deref e;
  store e (mkPlentifulError (Reason pe) stackTrace (Details pe));;
  mret e.

(** [m[key] = value] on the field [Details]: writing to a nil map stops
    the process. *)
Definition set_detail (p : loc) (key value : string) : M unit :=
  pe ← deref p;
  match Details pe with
  | None => halt (Panic "assignment to entry in nil map")
  | Some d => store p (mkPlentifulError (Reason pe) (Cause pe) (Some (<[key := value]> d)))
  end.

(** [func (pe *PlentifulError) With(key, value string) *PlentifulError]. *)
Definition With (pe : loc) (key value : string) : M loc :=
  set_detail pe key value;;
  mret pe.

(** [func Adhere(err error, key, value string) error]. *)
Definition Adhere (err : option error) (key value : string) : M (option error) :=
  match err with
  | Some (ErrPlentiful perr) =>
      set_detail perr key value;;
      mret (Some (ErrPlentiful perr))
  | _ => mret err
  end.

End errc.

(** The method [Error()] of an [error] value, whatever its dynamic type. *)
Definition error_Error (err : error) : M string :=
  match err with
  | ErrPlentiful p => errc.Error p
  | ErrForeign f => mret (foreign_message f)
  end.

(** ** Package [fmt] *)

Module fmt.

Definition nl : string := String "010" "".

(** [fmt.Sprintf("%-11s: %s\n", label, value)]. *)
Definition Sprintf_label (label value : string) : string :=
  pad11 label ++ ": " ++ value ++ nl.

(** [fmt.Sprintf("%-11s: %s, %s, %s\n", label, a, b, c)]. *)
Definition Sprintf_label3 (label a b c : string) : string :=
  pad11 label ++ ": " ++ a ++ ", " ++ b ++ ", " ++ c ++ nl.

(** [fmt.Print(s)]: to the standard output. *)
Definition Print (s : string) : M unit :=
  modify (λ st, set_stdout (stdout st ++ s) st).

(** [fmt.Fprintf(os.Stderr, "%s\n", s)]. *)
Definition Fprintf_Stderr_line (s : string) : M unit :=
  modify (λ st, set_stderr (stderr st ++ s ++ nl) st).

End fmt.

(** ** Package [util] *)

Module util.

(** Modelled from the spec: [util.GetRunPhase] and [util.SetRunPhase] are
    not part of the sources at hand; the phase is exposed via simple
    get/set, and a later write silently overrides an earlier one. *)
Definition GetRunPhase : M RunPhase := st ← get; mret (rp st).
Definition SetRunPhase (phase : RunPhase) : M unit := modify (set_rp phase).

(** Modelled from the spec: [util.InPreprocess] and [util.InInstrument]
    are not part of the sources at hand; they tell whether the run phase
    is the one they name. *)
Definition InPreprocess : M bool :=
  phase ← GetRunPhase; mret (bool_decide (phase = PPreprocess)).
Definition InInstrument : M bool :=
  phase ← GetRunPhase; mret (bool_decide (phase = PInstrument)).

(** Modelled from the spec: [util.PathNotExists] is not part of the
    sources at hand; the root workspace directory is created if absent. *)
Definition PathNotExists (p : path) : M bool :=
  st ← get; mret (bool_decide (os.lookup_path p (fs st) = None)).

(** Modelled from the spec: [util.GetTempBuildDirWith] is not part of the
    sources at hand; the workspace is a root directory plus two named
    subdirectories. *)
Definition GetTempBuildDirWith (W : World) (name : string) : path :=
  util_TempBuildDir W ++ [name].

(** The directory name a phase constant stands for when it is used as a
    string. *)
Definition phase_name (W : World) (phase : RunPhase) : string :=
  match phase with
  | PUnset => ""
  | PPreprocess => util_PPreprocess W
  | PInstrument => util_PInstrument W
  end.

(** Modelled from the spec: [util.Assert] is not part of the sources at
    hand; a violated assertion ends the process abnormally. *)
Definition Assert (cond : bool) (message : string) : M unit :=
  if cond then mret tt else halt (Panic message).

(** Modelled from the spec: [util.LogFatal] is not part of the sources at
    hand; the fatal reporter emits a single textual report and then
    terminates the process with a non-zero condition owned by the logging
    facility. *)
Definition LogFatal {A} (message : string) : M A := halt (LogFatal message).

End util.

(** ** [tool/otel/main.go] *)

Definition SubcommandSet : string := "set".
Definition SubcommandGo : string := "go".
Definition SubcommandVersion : string := "version".
Definition SubcommandRemix : string := "remix".

(** The initial value of the package variable [usage]. *)
Definition usage_text : string :=
  "Usage: {} <command> [args]
Example:
	{} go build
	{} go install
	{} go build main.go
	{} version
	{} set -verbose -rule=custom.json

Command:
	version    print the version
	set        set the configuration
	go         build the Go application
".

(** [os.Args[i]]: an index out of range stops the process. *)
Definition os_Args_at (W : World) (i : nat) : M string :=
  match os_Args W !! i with
  | Some a => mret a
  | None => halt (Panic "index out of range")
  end.

(** [for _, x := range xs { body(x) }] over a slice. *)
Fixpoint for_each {A} (xs : list A) (body : A → M unit) : M unit :=
  match xs with
  | [] => mret tt
  | x :: rest => body x;; for_each rest body
  end.

Section Main.

Context (W : World).

Definition printUsage : M unit :=
  let name := util_GetToolName W in
  st ← get;
  let usage' := ReplaceAll (usage st) "{}" name in
  modify (set_usage usage');;
  fmt.Print usage'.

(** The body of the loop of [initTempDir]: both results are dropped. *)
Definition resetSubdir (subdir : string) : M unit :=
  _ ← os.RemoveAll (util.GetTempBuildDirWith W subdir);
  _ ← os.MkdirAll (util.GetTempBuildDirWith W subdir);
  mret tt.

Definition initTempDir : M (option error) :=
  phase ← util.GetRunPhase;
  if bool_decide (phase = PInstrument) then mret None
  else
    absent ← util.PathNotExists (util_TempBuildDir W);
    failed ← (if absent : bool then
                err ← os.MkdirAll (util_TempBuildDir W);
                match err with
                | Some e =>
                    p ← errc.New W (os.PathError_Error e);
                    mret (Some (ErrPlentiful p))
                | None => mret None
                end
              else mret None);
    match failed with
    | Some e => mret (Some e)
    | None =>
        for_each [util.phase_name W PPreprocess; util.phase_name W PInstrument]
                 resetSubdir;;
        mret None
    end.

(** The [switch] of [initEnv] that determines the run phase. *)
Definition determinePhase : M unit :=
  arg ← os_Args_at W 1;
  if HasSuffix arg SubcommandGo then util.SetRunPhase PPreprocess
  else if String.eqb arg SubcommandRemix then util.SetRunPhase PInstrument
  else mret tt.

Definition initEnv : M (option error) :=
  util.Assert (2 <=? length (os_Args W))%nat "no command specified";;
  determinePhase;;
  err ← initTempDir;
  match err with
  | Some e => mret (Some e)
  | None =>
      inPreprocess ← util.InPreprocess;
      inInstrument ← util.InInstrument;
      if inPreprocess || inInstrument then
        err ← config_InitConfig W;
        match err with
        | Some e => mret (Some e)
        | None => mret None
        end
      else mret None
  end.

(** The lines of [fatal] that describe the environment. *)
Definition environment_block : string :=
  "===== Environments =====" ++ fmt.nl
  ++ fmt.Sprintf_label "command" (Join (os_Args W) " ")
  ++ fmt.Sprintf_label "errorLog" (util_GetLoggerPath W)
  ++ fmt.Sprintf_label "workDir" (env_PWD W)
  ++ fmt.Sprintf_label3 "toolchain"
       (runtime_GOOS W ++ "/" ++ runtime_GOARCH W)
       (runtime_Version W) (config_ToolVersion W).

(** [for k, v := range details { message += Sprintf(...) }]. *)
Definition detail_lines (visited : list (string * string)) : string :=
  foldl (λ message kv, message ++ fmt.Sprintf_label kv.1 kv.2) "" visited.

Definition fatal_header : string :=
  fmt.nl ++ "===== Fatal Error ======" ++ fmt.nl.

Definition fatal {A} (err : option error) : M A :=
  let message := environment_block in
  message ← match err with
            | Some (ErrPlentiful p) =>
                perr ← errc.deref p;
                match Details perr with
                | Some d =>
                    if (0 <? size d)%nat
                    then mret (message ++ detail_lines (range_order W d))
                    else mret message
                | None => mret message
                end
            | _ => mret message
            end;
  let message := message ++ fatal_header in
  message ← match err with
            | Some (ErrPlentiful p) =>
                perr ← errc.deref p;
                mret (message ++ fmt.nl ++ Reason perr)
            | _ => mret message
            end;
  util.LogFatal message.

Definition main : M unit :=
  if (length (os_Args W) <? 2)%nat then
    printUsage;;
    os.Exit 0
  else
    err ← initEnv;
    match err with
    | Some _ => fatal err
    | None => mret tt
    end;;
    subcmd ← os_Args_at W 1;
    err ← (if String.eqb subcmd SubcommandVersion then config_PrintVersion W
           else if String.eqb subcmd SubcommandSet then config_Configure W
           else if String.eqb subcmd SubcommandGo then preprocess_Preprocess W
           else if String.eqb subcmd SubcommandRemix then
             err ← instrument_Instrument W;
             match err with
             | Some e =>
                 text ← error_Error e;
                 fmt.Fprintf_Stderr_line text;;
                 os.Exit 1
             | None => mret err
             end
           else
             printUsage;;
             mret err);
    match err with
    | Some _ => fatal err
    | None => mret tt
    end.

(** A whole run of the process: when [main] returns, the process ends
    with status 0. *)
Definition run (st : State) : outcome * State :=
  match main st with
  | (Val _, st') => (Exit 0, st')
  | (Halt o, st') => (o, st')
  end.

End Main.

(** The state in which a process starts, in a working directory [cwd]. *)
Definition initial_state (cwd : node) : State :=
  mkState PUnset usage_text cwd ∅ "" "".

(** ** Observations and sample surroundings *)

(** The same surroundings with another argument list. *)
Definition with_Args (args : list string) (W : World) : World :=
  mkWorld args (env_PWD W) (runtime_GOOS W) (runtime_GOARCH W)
    (runtime_Version W) (debug_Stack W) (range_order W)
    (config_ToolVersion W) (util_GetLoggerPath W) (util_GetToolName W)
    (util_TempBuildDir W) (util_PPreprocess W) (util_PInstrument W)
    (config_InitConfig W) (config_PrintVersion W) (config_Configure W)
    (preprocess_Preprocess W) (instrument_Instrument W).

(** The run phase that [initEnv] determines when the tool is started
    with the arguments [argv] after its own name. *)
Definition phase_for (W : World) (argv : list string) (st : State)
  : option RunPhase :=
  match determinePhase (with_Args (util_GetToolName W :: argv) W) st with
  | (Val _, st') => Some (rp st')
  | (Halt _, _) => None
  end.

(** A handler that succeeds without touching anything. *)
Definition quiet : M (option error) := mret None.

(** A handler that fails with a new [PlentifulError] holding [e]. *)
Definition raise_plentiful (e : PlentifulError) : M (option error) :=
  p ← errc.alloc e;
  mret (Some (ErrPlentiful p)).

(** A handler that fails with an error of another type. *)
Definition raise_foreign (f : ForeignError) : M (option error) :=
  mret (Some (ErrForeign f)).

(** A Linux machine on which the tool is called [otel]. *)
Definition sample_world (args : list string)
    (initConfig goHandler remixHandler : M (option error)) : World :=
  mkWorld args "/home/dev/app" "linux" "amd64" "go1.22.0"
    (λ _, "goroutine 1 [running]:") map_to_list
    "0.4.0" "/tmp/otel.log" "otel"
    [".otel-build"] "preprocess" "instrument"
    initConfig quiet quiet goHandler remixHandler.

(** The map of details of every error object in the store is made: the
    state of affairs that [errc.New] sets up. *)
Definition details_made (st : State) : Prop :=
  ∀ p e, heap st !! p = Some e → is_Some (Details e).

(** The text of one line of details in the fatal report. *)
Definition detail_line (kv : string * string) : string :=
  pad11 kv.1 ++ ": " ++ kv.2 ++ fmt.nl.

(** The entries that the loop of [fatal] visits, in the order it visits
    them: none when there is no map or the map is empty. *)
Definition visited_details (W : World) (e : PlentifulError)
  : list (string * string) :=
  match Details e with
  | Some d => if (0 <? size d)%nat then range_order W d else []
  | None => []
  end.

(** A state that holds one error object, at address 1: the error of a
    failed link step, annotated with its stage. *)
Definition link_error : PlentifulError :=
  mkPlentifulError "link error" "goroutine 1 [running]:"
    (Some {[ "stage" := "link" ]}).

Definition link_error_state : State :=
  set_heap {[ 1%positive := link_error ]} (initial_state (Dir true ∅)).

(** The error of a failed compilation, without details. *)
Definition compile_error : PlentifulError :=
  mkPlentifulError "compile failed" "goroutine 1 [running]:" (Some ∅).

(** What [printUsage] leaves behind: the placeholders of [usage] are
    filled in with the name of the tool, and the text is on the standard
    output. *)
Definition usage_printed (W : World) (st : State) : State :=
  set_stdout (stdout st ++ ReplaceAll (usage st) "{}" (util_GetToolName W))
    (set_usage (ReplaceAll (usage st) "{}" (util_GetToolName W)) st).

(** The sub-commands that [main] knows. *)
Definition known_subcommands : list string :=
  [SubcommandVersion; SubcommandSet; SubcommandGo; SubcommandRemix].

(** Both named subdirectories of the workspace are there and empty. *)
Definition workspace_clean (W : World) (n : node) : Prop :=
  os.lookup_path (util.GetTempBuildDirWith W (util_PPreprocess W)) n
    = Some (Dir true ∅)
  ∧ os.lookup_path (util.GetTempBuildDirWith W (util_PInstrument W)) n
    = Some (Dir true ∅).

(** The workspace can be reset: its root is missing and can be made, or
    it is a writable directory in which whatever the two named
    subdirectories hold can be removed. *)
Definition workspace_resettable (W : World) (n : node) : Prop :=
  match os.lookup_path (util_TempBuildDir W) n with
  | None => (os.mkdir_all [] (util_TempBuildDir W) n).1 = None
  | Some File => False
  | Some (Dir w es) =>
      w = true
      ∧ ∀ name child,
          name ∈ [util_PPreprocess W; util_PInstrument W] →
          es !! name = Some child →
          os.removable (os.purge child) = true
  end.

(** ** The workspace seen from its root *)

(** The body of the loop of [initTempDir], seen from the root of the
    workspace: the entry is removed if that can be done, and made if it
    is not there. *)
Definition reset_entry (whole pre : list string) (name : string) (d : node) : node :=
  (os.mkdir_all pre [name] (os.remove_all whole [name] d).2).2.

(** What [initTempDir] makes of the root directory [d] of the workspace. *)
Definition reset_root (W : World) (d : node) : node :=
  reset_entry (util.GetTempBuildDirWith W (util_PInstrument W)) (util_TempBuildDir W)
    (util_PInstrument W)
    (reset_entry (util.GetTempBuildDirWith W (util_PPreprocess W)) (util_TempBuildDir W)
       (util_PPreprocess W) d).

(** The height of an object: the longest chain of directories in it. *)
Fixpoint node_height (n : node) : nat :=
  match n with
  | File => 0
  | Dir _ es => S (map_fold (λ _ child h, node_height child `max` h) 0 es)
  end.

(** Whether every directory in an object can be written. *)
Fixpoint all_writable (n : node) : bool :=
  match n with
  | File => true
  | Dir w es => w && map_fold (λ _ child b, all_writable child && b) true es
  end.

(** What a program running between two calls of the tool may do to the
    directory tree: write a regular file, or make directories. *)
Inductive activity :=
| WriteFile (p : list string)
| MakeDirs (p : list string).

Definition perform (a : activity) (n : node) : node :=
  match a with
  | WriteFile p => os.write_file p n
  | MakeDirs p => (os.mkdir_all [] p n).2
  end.

Definition perform_all (acts : list activity) (n : node) : node :=
  foldl (λ n a, perform a n) n acts.

(** The workspace while it is in use: its root is a writable directory,
    and each of the two named subdirectories is there with nothing but
    writable directories in it. *)
Definition workspace_in_use (W : World) (n : node) : Prop :=
  ∃ es,
    os.lookup_path (util_TempBuildDir W) n = Some (Dir true es)
    ∧ ∀ name, name ∈ [util_PPreprocess W; util_PInstrument W] →
        ∃ c, es !! name = Some c ∧ all_writable c = true.

(** A working directory with leftovers of an earlier run: a stale file in
    the subdirectory of the preprocess phase. *)
Definition stale_cwd : node :=
  Dir true {[ ".otel-build" :=
    Dir true {[ "preprocess" := Dir true {[ "stale.go" := File ]} ]} ]}.

(** A working directory in which an earlier run left a read-only
    directory with a file in it. *)
Definition locked_cwd : node :=
  Dir true {[ ".otel-build" :=
    Dir true {[ "preprocess" :=
      Dir true {[ "cache" := Dir false {[ "old.o" := File ]} ]} ]} ]}.

(** A working directory in which the name of the workspace is taken by a
    regular file. *)
Definition blocked_cwd : node :=
  Dir true {[ ".otel-build" := File ]}.

(** Two paths part ways: after a common start, possibly empty, they go
    on with different names. *)
Fixpoint diverge (p q : list string) : bool :=
  match p, q with
  | x :: p', y :: q' => if decide (x = y) then diverge p' q' else true
  | _, _ => false
  end.

(** Unfolding the monad of the process. *)
Ltac run_M :=
  unfold mbind, M_bind, mret, M_ret, get, modify, halt in *; simpl in *.

(** * Properties *)

(** ** Strings *)

Example HasSuffix_go : HasSuffix "go" "go" = true.
Proof. reflexivity. Qed.

Example HasSuffix_cargo : HasSuffix "cargo" "go" = true.
Proof. reflexivity. Qed.

Example HasSuffix_short : HasSuffix "o" "go" = false.
Proof. reflexivity. Qed.

Example HasSuffix_gopher : HasSuffix "gopher" "go" = false.
Proof. reflexivity. Qed.

Example Join_args : Join ["otel"; "go"; "build"] " " = "otel go build".
Proof. reflexivity. Qed.

Example pad11_command : pad11 "command" = "command    ".
Proof. reflexivity. Qed.

Example pad11_long : pad11 "a-very-long-key" = "a-very-long-key".
Proof. reflexivity. Qed.

Example ReplaceAll_braces :
  ReplaceAll "Usage: {} <command>, {} go" "{}" "otel"
  = "Usage: otel <command>, otel go".
Proof. reflexivity. Qed.

Example ReplaceAll_no_overlap : ReplaceAll "aaa" "aa" "b" = "ba".
Proof. reflexivity. Qed.

Example ReplaceAll_empty : ReplaceAll "ab" "" "-" = "-a-b-".
Proof. reflexivity. Qed.

Lemma length_append (s t : string) :
  String.length (s ++ t) = (String.length s + String.length t)%nat.
Proof. induction s as [|c s IH]; simpl; [done | by rewrite IH]. Qed.

Lemma drop_bytes_append (p s : string) :
  drop_bytes (String.length p) (p ++ s) = s.
Proof. induction p as [|c p IH]; simpl; done. Qed.

Lemma drop_bytes_split (i : nat) (s : string) :
  ∃ p, s = p ++ drop_bytes i s.
Proof.
  revert s. induction i as [|i IH]; intros s.
  - by exists "".
  - destruct s as [|c s]; simpl.
    + by exists "".
    + destruct (IH s) as [p Hp]. exists (String c p).
      change (String c s = String c (p ++ drop_bytes i s)). by f_equal.
Qed.

(** [HasSuffix] holds exactly of the strings that end with the suffix. *)
Lemma HasSuffix_spec (s suffix : string) :
  HasSuffix s suffix = true ↔ ∃ p, s = p ++ suffix.
Proof.
  unfold HasSuffix. rewrite andb_true_iff, String.eqb_eq. split.
  - intros [_ Heq]. destruct (drop_bytes_split (String.length s - String.length suffix) s) as [p Hp].
    exists p. by rewrite Heq in Hp.
  - intros [p ->]. rewrite length_append. split.
    + apply Nat.leb_le. lia.
    + replace (String.length p + String.length suffix - String.length suffix)%nat
        with (String.length p) by lia.
      apply drop_bytes_append.
Qed.

(** ** The run phase *)

Lemma determinePhase_run (W : World) (st : State) (tool arg : string) (rest : list string) :
  os_Args W = tool :: arg :: rest →
  determinePhase W st =
    (Val tt,
     if HasSuffix arg SubcommandGo then set_rp PPreprocess st
     else if String.eqb arg SubcommandRemix then set_rp PInstrument st
     else st).
Proof.
  intros Hargs. unfold determinePhase, os_Args_at. rewrite Hargs. simpl.
  unfold mbind, M_bind, mret, M_ret. simpl.
  destruct (HasSuffix arg SubcommandGo); [done |].
  destruct (String.eqb arg SubcommandRemix); done.
Qed.

(** C3. The run phase is determined by the text of the first argument
    alone: an argument that ends with [go] gives [Preprocess], the
    argument [remix] gives [Instrument], and any other argument leaves the
    phase as it was, [Unset] at start-up. So [go build] is classified as
    [Preprocess], [remix] as [Instrument], [version] as [Unset], and an
    argument such as [cargo], which merely ends with [go], as
    [Preprocess]. *)
Theorem determinePhase_syntactic (W : World) :
  (∀ (arg : string) (rest : list string) (st : State),
      phase_for W (arg :: rest) st
      = Some (if HasSuffix arg "go" then PPreprocess
              else if String.eqb arg "remix" then PInstrument
              else rp st))
  ∧ (∀ (arg : string) (rest : list string) (st : State),
      ((∃ p, arg = p ++ "go") → phase_for W (arg :: rest) st = Some PPreprocess)
      ∧ (arg = "remix" → phase_for W (arg :: rest) st = Some PInstrument)
      ∧ ((¬ ∃ p, arg = p ++ "go") → arg ≠ "remix" → rp st = PUnset →
         phase_for W (arg :: rest) st = Some PUnset))
  ∧ (∀ cwd, phase_for W ["go"; "build"] (initial_state cwd) = Some PPreprocess)
  ∧ (∀ cwd, phase_for W ["remix"] (initial_state cwd) = Some PInstrument)
  ∧ (∀ cwd, phase_for W ["version"] (initial_state cwd) = Some PUnset)
  ∧ (∀ cwd, phase_for W ["cargo"; "build"] (initial_state cwd) = Some PPreprocess).
Proof.
  assert (Hrun : ∀ arg rest st,
      phase_for W (arg :: rest) st
      = Some (if HasSuffix arg "go" then PPreprocess
              else if String.eqb arg "remix" then PInstrument
              else rp st)).
  { intros arg rest st. unfold phase_for.
    rewrite (determinePhase_run _ st (util_GetToolName W) arg rest) by done.
    unfold SubcommandGo, SubcommandRemix.
    destruct (HasSuffix arg "go"); [done |].
    destruct (String.eqb arg "remix"); done. }
  split; [exact Hrun |]. split.
  - intros arg rest st. rewrite Hrun. split; [| split].
    + intros Hsuf. apply HasSuffix_spec in Hsuf. by rewrite Hsuf.
    + intros ->. done.
    + intros Hsuf Hne Hrp.
      destruct (HasSuffix arg "go") eqn:E.
      * exfalso. apply Hsuf. by apply HasSuffix_spec.
      * apply String.eqb_neq in Hne. rewrite Hne. by rewrite Hrp.
  - repeat split; intros cwd; by rewrite Hrun.
Qed.

(** At the arguments [cargo build], from a fresh state. *)
Lemma determinePhase_syntactic_witness :
  (∃ p, "cargo" = p ++ "go")
  ∧ phase_for (sample_world [] quiet quiet quiet) ["cargo"; "build"]
      (initial_state (Dir true ∅)) = Some PPreprocess.
Proof.
  assert (H : ∃ p, "cargo" = p ++ "go") by (by exists "car").
  split; [exact H |].
  exact (proj1 (proj1 (proj2 (determinePhase_syntactic
           (sample_world [] quiet quiet quiet)))
           "cargo" ["build"] (initial_state (Dir true ∅))) H).
Defined.

(** ** Error values *)

Lemma deref_run (st : State) (p : loc) (e : PlentifulError) :
  heap st !! p = Some e → errc.deref p st = (Val e, st).
Proof. intros H. unfold errc.deref. by rewrite H. Qed.

Lemma set_detail_run (st : State) (p : loc) (e : PlentifulError)
    (d : gmap string string) (key value : string) :
  heap st !! p = Some e →
  Details e = Some d →
  errc.set_detail p key value st
  = (Val tt,
     set_heap (<[p := mkPlentifulError (Reason e) (Cause e)
                        (Some (<[key := value]> d))]> (heap st)) st).
Proof.
  intros Hp Hd. unfold errc.set_detail. run_M.
  rewrite (deref_run _ _ _ Hp), Hd. done.
Qed.

Lemma With_run (st : State) (pe : loc) (e : PlentifulError)
    (d : gmap string string) (key value : string) :
  heap st !! pe = Some e →
  Details e = Some d →
  errc.With pe key value st
  = (Val pe,
     set_heap (<[pe := mkPlentifulError (Reason e) (Cause e)
                         (Some (<[key := value]> d))]> (heap st)) st).
Proof.
  intros Hp Hd. unfold errc.With. run_M.
  by rewrite (set_detail_run _ _ _ _ _ _ Hp Hd).
Qed.

(** [New] never fails; the error it makes is new, has the given reason,
    the stack trace of the moment, and a map of details that is made and
    empty. *)
Lemma New_run (W : World) (st : State) (message : string) :
  ∃ p stack,
    errc.New W message st
    = (Val p, set_heap (<[p := mkPlentifulError message stack (Some ∅)]> (heap st)) st)
    ∧ heap st !! p = None.
Proof.
  exists (fresh (dom (heap st))).
  eexists. unfold errc.New, errc.alloc, errc.store, errc.deref. run_M.
  rewrite lookup_insert_eq. simpl. rewrite insert_insert_eq. split; [reflexivity |].
  apply not_elem_of_dom, is_fresh.
Qed.

Lemma New_details_made (W : World) (st st' : State) (message : string) (p : loc) :
  details_made st →
  errc.New W message st = (Val p, st') →
  details_made st'.
Proof.
  intros Hok Hnew. destruct (New_run W st message) as (q & stack & Hrun & _).
  rewrite Hrun in Hnew. injection Hnew as <- <-.
  intros r e. simpl. rewrite lookup_insert. case_decide.
  - intros [= <-]. by eexists.
  - apply Hok.
Qed.

Lemma set_heap_details_made (st : State) (p : loc) (e : PlentifulError) :
  details_made st →
  is_Some (Details e) →
  details_made (set_heap (<[p := e]> (heap st)) st).
Proof.
  intros Hok He q e'. simpl. rewrite lookup_insert. case_decide.
  - by intros [= <-].
  - apply Hok.
Qed.

(** [With] keeps the maps of details made. *)
Lemma With_details_made (st st' : State) (pe p' : loc) (key value : string) :
  details_made st →
  errc.With pe key value st = (Val p', st') →
  details_made st'.
Proof.
  intros Hok Hrun. unfold errc.With, errc.set_detail, errc.deref, errc.store in Hrun.
  run_M. destruct (heap st !! pe) as [e|] eqn:He; [| done]. simpl in Hrun.
  destruct (Details e) as [d|] eqn:Hd; [| done]. simpl in Hrun.
  injection Hrun as <- <-. apply set_heap_details_made; [done | by eexists].
Qed.

(** C6. [Adhere] never fails. On a [PlentifulError] it puts the pair into
    the map of details of that very object, leaving every other object
    and every other key alone, and returns the pointer it was given; on
    an error of any other type it returns the error as it is and changes
    nothing at all. *)
Theorem Adhere_best_effort (st : State) (err : error) (key value : string) :
  details_made st →
  (∀ p, err = ErrPlentiful p → is_Some (heap st !! p)) →
  ∃ st',
    errc.Adhere (Some err) key value st = (Val (Some err), st')
    ∧ details_made st'
    ∧ match err with
      | ErrPlentiful p =>
          ∃ e d,
            heap st !! p = Some e
            ∧ Details e = Some d
            ∧ st' = set_heap
                      (<[p := mkPlentifulError (Reason e) (Cause e)
                                (Some (<[key := value]> d))]> (heap st)) st
            ∧ <[key := value]> d !! key = Some value
            ∧ (∀ k, k ≠ key → <[key := value]> d !! k = d !! k)
            ∧ (∀ q, q ≠ p → heap st' !! q = heap st !! q)
      | ErrForeign f => st' = st
      end.
Proof.
  intros Hok Hlive. destruct err as [p | f].
  - destruct (Hlive p eq_refl) as [e He].
    destruct (Hok p e He) as [d Hd].
    eexists. split; [| split].
    + unfold errc.Adhere. run_M. by rewrite (set_detail_run _ _ _ _ _ _ He Hd).
    + apply set_heap_details_made; [done | by eexists].
    + exists e, d. repeat split; try done.
      * apply lookup_insert_eq.
      * intros k Hk. by apply lookup_insert_ne.
      * intros q Hq. simpl. by apply lookup_insert_ne.
  - exists st. done.
Qed.

Lemma link_error_state_made : details_made link_error_state.
Proof.
  intros p e. unfold link_error_state. simpl.
  rewrite lookup_singleton. case_decide; [| done].
  intros [= <-]. by eexists.
Defined.

(** At the error of the failed link step. *)
Lemma Adhere_best_effort_witness :
  details_made link_error_state
  ∧ ∃ st',
      errc.Adhere (Some (ErrPlentiful 1)) "package" "main" link_error_state
      = (Val (Some (ErrPlentiful 1)), st').
Proof.
  split; [exact link_error_state_made |].
  destruct (Adhere_best_effort link_error_state (ErrPlentiful 1)
              "package" "main" link_error_state_made) as (st' & H & _).
  - intros p [= <-]. by eexists.
  - by exists st'.
Defined.

Lemma filter_none {A} (P : A → Prop) `{∀ x, Decision (P x)} (l : list A) :
  (∀ x, x ∈ l → ¬ P x) → filter P l = [].
Proof.
  induction l as [|a l IH]; intros Hl; [done |].
  rewrite filter_cons_False by (apply Hl; left).
  apply IH. intros x Hx. apply Hl. by right.
Qed.

(** A map holds exactly one entry for a key it has. *)
Lemma filter_key_map_to_list (m : gmap string string) (k v : string) :
  m !! k = Some v →
  filter (λ kv, kv.1 = k) (map_to_list m) = [(k, v)].
Proof.
  intros Hk. apply Permutation_singleton_r.
  rewrite <- (insert_delete_id m k v Hk).
  rewrite map_to_list_insert by apply lookup_delete_eq.
  rewrite filter_cons_True by done.
  apply Permutation_skip.
  rewrite filter_none; [done |].
  intros [k' v'] Hin Hk'. simpl in Hk'. subst k'.
  apply elem_of_map_to_list in Hin. by rewrite lookup_delete_eq in Hin.
Qed.

(** C7. [With] is an upsert that hands back its receiver: after
    [With(k, v1)] and then [With(k, v2)] on the same error, the details
    hold exactly one entry for [k], with the value [v2], every other key
    is as it was before, and both calls return the pointer they were
    called on. Attaching the same pair twice is the same as attaching it
    once. *)
Theorem With_upsert (st : State) (pe : loc) (e : PlentifulError)
    (d : gmap string string) (key v1 v2 : string) :
  heap st !! pe = Some e →
  Details e = Some d →
  ∃ st1 st2 d2,
    errc.With pe key v1 st = (Val pe, st1)
    ∧ errc.With pe key v2 st1 = (Val pe, st2)
    ∧ heap st2 !! pe = Some (mkPlentifulError (Reason e) (Cause e) (Some d2))
    ∧ d2 = <[key := v2]> d
    ∧ d2 !! key = Some v2
    ∧ filter (λ kv, kv.1 = key) (map_to_list d2) = [(key, v2)]
    ∧ (∀ k, k ≠ key → d2 !! k = d !! k)
    ∧ (v1 = v2 → st2 = st1).
Proof.
  intros Hp Hd.
  set (e1 := mkPlentifulError (Reason e) (Cause e) (Some (<[key := v1]> d))).
  set (st1 := set_heap (<[pe := e1]> (heap st)) st).
  assert (Hp1 : heap st1 !! pe = Some e1) by apply lookup_insert_eq.
  exists st1, (set_heap (<[pe := mkPlentifulError (Reason e1) (Cause e1)
                                 (Some (<[key := v2]> (<[key := v1]> d)))]> (heap st1)) st1),
         (<[key := v2]> d).
  split; [by apply With_run |].
  split; [by apply (With_run st1 pe e1) |].
  split; [simpl; by rewrite lookup_insert_eq, insert_insert_eq |].
  split; [done |].
  split; [apply lookup_insert_eq |].
  split.
  - apply filter_key_map_to_list, lookup_insert_eq.
  - split; [intros k Hk; by apply lookup_insert_ne |].
    intros <-. unfold st1 at 2. simpl. unfold st1. simpl.
    by rewrite !insert_insert_eq.
Qed.

(** At the error of the failed link step, whose stage is set twice. *)
Lemma With_upsert_witness :
  heap link_error_state !! 1%positive = Some link_error
  ∧ ∃ st1 st2,
      errc.With 1 "stage" "compile" link_error_state = (Val 1%positive, st1)
      ∧ errc.With 1 "stage" "link" st1 = (Val 1%positive, st2).
Proof.
  assert (H : heap link_error_state !! 1%positive = Some link_error) by reflexivity.
  split; [exact H |].
  destruct (With_upsert link_error_state 1 link_error {[ "stage" := "link" ]}
              "stage" "compile" "link" H eq_refl) as (st1 & st2 & d2 & H1 & H2 & _).
  by exists st1, st2.
Defined.

(** ** The workspace *)

(** C4. In the [Instrument] phase [initTempDir] returns at once without
    an error and leaves the whole state, the directory tree included, as
    it found it: nothing is made, removed or reset. *)
Theorem initTempDir_instrument_noop (W : World) (st : State) :
  rp st = PInstrument →
  initTempDir W st = (Val None, st).
Proof.
  intros Hrp. unfold initTempDir, util.GetRunPhase. run_M.
  rewrite Hrp. done.
Qed.

(** In a workspace with leftovers of an earlier run. *)
Lemma initTempDir_instrument_noop_witness :
  initTempDir (sample_world ["otel"; "remix"] quiet quiet quiet)
    (set_rp PInstrument
       (initial_state
          (Dir true {[ ".otel-build" := Dir true {[ "preprocess" := Dir true {[ "a.go" := File ]} ]} ]})))
  = (Val None,
     set_rp PInstrument
       (initial_state
          (Dir true {[ ".otel-build" := Dir true {[ "preprocess" := Dir true {[ "a.go" := File ]} ]} ]}))).
Proof.
  apply initTempDir_instrument_noop. reflexivity.
Defined.

(** ** The fatal report *)

Lemma append_assoc (a b c : string) : (a ++ b) ++ c = a ++ (b ++ c).
Proof.
  induction a as [|x a IH]; [done |].
  change (String x ((a ++ b) ++ c) = String x (a ++ (b ++ c))). by f_equal.
Qed.

Lemma append_empty_r (a : string) : a ++ "" = a.
Proof.
  induction a as [|x a IH]; [done |].
  change (String x (a ++ "") = String x a). by f_equal.
Qed.

Lemma detail_lines_from (acc : string) (visited : list (string * string)) :
  foldl (λ message kv, message ++ fmt.Sprintf_label kv.1 kv.2) acc visited
  = acc ++ String.concat "" (map detail_line visited).
Proof.
  revert acc. induction visited as [|kv l IH]; intros acc; simpl.
  - by rewrite append_empty_r.
  - rewrite IH, append_assoc. f_equal.
    destruct l; simpl; [by rewrite append_empty_r | done].
Qed.

Lemma detail_lines_concat (visited : list (string * string)) :
  detail_lines visited = String.concat "" (map detail_line visited).
Proof. unfold detail_lines. by rewrite detail_lines_from. Qed.

(** The environment block, written out. *)
Lemma environment_block_text (W : World) :
  environment_block W
  = "===== Environments =====" ++ fmt.nl
    ++ "command    : " ++ Join (os_Args W) " " ++ fmt.nl
    ++ "errorLog   : " ++ util_GetLoggerPath W ++ fmt.nl
    ++ "workDir    : " ++ env_PWD W ++ fmt.nl
    ++ "toolchain  : " ++ runtime_GOOS W ++ "/" ++ runtime_GOARCH W
    ++ ", " ++ runtime_Version W ++ ", " ++ config_ToolVersion W ++ fmt.nl.
Proof.
  unfold environment_block, fmt.Sprintf_label, fmt.Sprintf_label3.
  change (pad11 "command") with "command    ".
  change (pad11 "errorLog") with "errorLog   ".
  change (pad11 "workDir") with "workDir    ".
  change (pad11 "toolchain") with "toolchain  ".
  rewrite !append_assoc. reflexivity.
Qed.

Lemma visited_details_fair (W : World) (e : PlentifulError) :
  range_fair W →
  visited_details W e ≡ₚ map_to_list (default ∅ (Details e)).
Proof.
  intros Hfair. unfold visited_details.
  destruct (Details e) as [d|]; simpl; [| by rewrite map_to_list_empty].
  destruct (0 <? size d)%nat eqn:Hsz; [apply Hfair |].
  apply Nat.ltb_ge in Hsz.
  assert (d = ∅) as -> by (apply map_size_empty_iff; lia).
  by rewrite map_to_list_empty.
Qed.

Lemma fatal_plentiful_run {A} (W : World) (st : State) (p : loc) (e : PlentifulError) :
  heap st !! p = Some e →
  @fatal W A (Some (ErrPlentiful p)) st
  = (Halt (LogFatal
       (environment_block W
        ++ String.concat "" (map detail_line (visited_details W e))
        ++ fatal_header ++ fmt.nl ++ Reason e)), st).
Proof.
  intros Hp. unfold fatal, util.LogFatal, visited_details. run_M.
  rewrite (deref_run _ _ _ Hp).
  destruct (Details e) as [d|]; simpl.
  - destruct (0 <? size d)%nat eqn:Hsz; simpl; rewrite (deref_run _ _ _ Hp).
    + by rewrite detail_lines_concat, !append_assoc.
    + by rewrite !append_assoc.
  - rewrite (deref_run _ _ _ Hp). by rewrite !append_assoc.
Qed.

Lemma fatal_foreign_run {A} (W : World) (st : State) (f : ForeignError) :
  @fatal W A (Some (ErrForeign f)) st
  = (Halt (LogFatal (environment_block W ++ fatal_header)), st).
Proof. reflexivity. Qed.

(** C1. The report that [fatal] hands to the logger is made of, in this
    order: the environment block, with the whole command line, the path
    of the log, the working directory and the identity of the toolchain,
    each after a label padded to eleven columns; then, for a
    [PlentifulError], one line per entry of its details, each entry once,
    in the order the map is walked; then the header of the closing
    section followed by the reason of the error and nothing else. The
    stack trace kept in [Cause] is no part of the report: two errors that
    differ in it alone give the same report. An error of another type has
    neither details nor a reason to show. *)
Theorem fatal_report (W : World) (st : State) (err : error) :
  range_fair W →
  (∀ p, err = ErrPlentiful p → is_Some (heap st !! p)) →
  ∃ details reason : string,
    @fatal W unit (Some err) st
    = (Halt (LogFatal
         (("===== Environments =====" ++ fmt.nl
           ++ "command    : " ++ Join (os_Args W) " " ++ fmt.nl
           ++ "errorLog   : " ++ util_GetLoggerPath W ++ fmt.nl
           ++ "workDir    : " ++ env_PWD W ++ fmt.nl
           ++ "toolchain  : " ++ runtime_GOOS W ++ "/" ++ runtime_GOARCH W
           ++ ", " ++ runtime_Version W ++ ", " ++ config_ToolVersion W ++ fmt.nl)
          ++ details
          ++ (fmt.nl ++ "===== Fatal Error ======" ++ fmt.nl)
          ++ reason)), st)
    ∧ match err with
      | ErrPlentiful p =>
          ∃ e visited,
            heap st !! p = Some e
            ∧ visited ≡ₚ map_to_list (default ∅ (Details e))
            ∧ details = String.concat "" (map detail_line visited)
            ∧ reason = fmt.nl ++ Reason e
            ∧ (∀ st2 p2 e2,
                 heap st2 !! p2 = Some e2 →
                 Reason e2 = Reason e →
                 Details e2 = Details e →
                 (@fatal W unit (Some (ErrPlentiful p2)) st2).1
                 = (@fatal W unit (Some err) st).1)
      | ErrForeign _ => details = "" ∧ reason = ""
      end.
Proof.
  intros Hfair Hlive. destruct err as [p | f].
  - destruct (Hlive p eq_refl) as [e He].
    exists (String.concat "" (map detail_line (visited_details W e))), (fmt.nl ++ Reason e).
    split.
    + rewrite (fatal_plentiful_run W st p e He), environment_block_text. done.
    + exists e, (visited_details W e).
      split; [done |]. split; [by apply visited_details_fair |].
      split; [done |]. split; [done |].
      intros st2 p2 e2 He2 Hr Hd.
      rewrite (fatal_plentiful_run W st p e He), (fatal_plentiful_run W st2 p2 e2 He2).
      unfold visited_details. by rewrite Hr, Hd.
  - exists "", "". split; [| done].
    rewrite fatal_foreign_run, environment_block_text. done.
Qed.

(** At the error of the failed link step. *)
Lemma fatal_report_witness :
  range_fair (sample_world ["otel"; "go"; "build"] quiet quiet quiet)
  ∧ ∃ details reason : string,
      (@fatal (sample_world ["otel"; "go"; "build"] quiet quiet quiet) unit
         (Some (ErrPlentiful 1)) link_error_state).1
      = Halt (LogFatal
          (("===== Environments =====" ++ fmt.nl
            ++ "command    : otel go build" ++ fmt.nl
            ++ "errorLog   : /tmp/otel.log" ++ fmt.nl
            ++ "workDir    : /home/dev/app" ++ fmt.nl
            ++ "toolchain  : linux/amd64, go1.22.0, 0.4.0" ++ fmt.nl)
           ++ details
           ++ (fmt.nl ++ "===== Fatal Error ======" ++ fmt.nl)
           ++ reason)).
Proof.
  assert (Hfair : range_fair (sample_world ["otel"; "go"; "build"] quiet quiet quiet))
    by (intros m; reflexivity).
  split; [exact Hfair |].
  destruct (fatal_report (sample_world ["otel"; "go"; "build"] quiet quiet quiet)
              link_error_state (ErrPlentiful 1) Hfair) as (details & reason & Hrun & _).
  - intros p [= <-]. by eexists.
  - exists details, reason. rewrite Hrun. reflexivity.
Defined.

(** The report of a failed [go build] whose error says [link error] and
    carries the detail [stage = link]. *)
Example fatal_report_link_error :
  (run (sample_world ["otel"; "go"; "build"] quiet (raise_plentiful link_error) quiet)
       (initial_state (Dir true ∅))).1
  = LogFatal
      ("===== Environments =====" ++ fmt.nl
       ++ "command    : otel go build" ++ fmt.nl
       ++ "errorLog   : /tmp/otel.log" ++ fmt.nl
       ++ "workDir    : /home/dev/app" ++ fmt.nl
       ++ "toolchain  : linux/amd64, go1.22.0, 0.4.0" ++ fmt.nl
       ++ "stage      : link" ++ fmt.nl
       ++ fmt.nl ++ "===== Fatal Error ======" ++ fmt.nl
       ++ fmt.nl ++ "link error").
Proof. vm_compute. reflexivity. Qed.

(** C9. For an error that is not a [PlentifulError] the report is the
    environment block followed by the header of the closing section and
    nothing more: no line of details, and no text after the header. The
    report is the same whatever the error says. *)
Theorem fatal_foreign_silent (W : World) (st : State) (f : ForeignError) :
  @fatal W unit (Some (ErrForeign f)) st
  = (Halt (LogFatal
       ("===== Environments =====" ++ fmt.nl
        ++ "command    : " ++ Join (os_Args W) " " ++ fmt.nl
        ++ "errorLog   : " ++ util_GetLoggerPath W ++ fmt.nl
        ++ "workDir    : " ++ env_PWD W ++ fmt.nl
        ++ "toolchain  : " ++ runtime_GOOS W ++ "/" ++ runtime_GOARCH W
        ++ ", " ++ runtime_Version W ++ ", " ++ config_ToolVersion W ++ fmt.nl
        ++ fmt.nl ++ "===== Fatal Error ======" ++ fmt.nl)), st)
  ∧ ∀ f' : ForeignError,
      @fatal W unit (Some (ErrForeign f')) st = @fatal W unit (Some (ErrForeign f)) st.
Proof.
  split; [| done].
  rewrite fatal_foreign_run, environment_block_text.
  unfold fatal_header. rewrite !append_assoc. reflexivity.
Qed.

(** The report of a failed [go build] whose error is of another type:
    what the error says is lost. *)
Example fatal_report_foreign :
  (run (sample_world ["otel"; "go"; "build"] quiet
          (raise_foreign (mkForeignError 7 "exit status 2")) quiet)
       (initial_state (Dir true ∅))).1
  = LogFatal
      ("===== Environments =====" ++ fmt.nl
       ++ "command    : otel go build" ++ fmt.nl
       ++ "errorLog   : /tmp/otel.log" ++ fmt.nl
       ++ "workDir    : /home/dev/app" ++ fmt.nl
       ++ "toolchain  : linux/amd64, go1.22.0, 0.4.0" ++ fmt.nl
       ++ fmt.nl ++ "===== Fatal Error ======" ++ fmt.nl).
Proof. vm_compute. reflexivity. Qed.

(** ** The dispatcher *)

Lemma printUsage_run (W : World) (st : State) :
  printUsage W st
  = (Val tt,
     set_stdout (stdout st ++ ReplaceAll (usage st) "{}" (util_GetToolName W))
       (set_usage (ReplaceAll (usage st) "{}" (util_GetToolName W)) st)).
Proof. reflexivity. Qed.

Lemma initTempDir_skipped (W : World) (st : State) :
  rp st = PInstrument →
  initTempDir W st = (Val None, st).
Proof.
  intros Hrp. unfold initTempDir, util.GetRunPhase. run_M.
  rewrite Hrp. done.
Qed.

Lemma initEnv_remix (W : World) (st : State) (tool : string) (rest : list string) :
  os_Args W = tool :: "remix" :: rest →
  initEnv W st
  = match config_InitConfig W (set_rp PInstrument st) with
    | (Val (Some e), st') => (Val (Some e), st')
    | (Val None, st') => (Val None, st')
    | (Halt o, st') => (Halt o, st')
    end.
Proof.
  intros Hargs. unfold initEnv.
  unfold mbind at 1 2. unfold M_bind at 1 2.
  rewrite Hargs. simpl.
  rewrite (determinePhase_run W st tool "remix" rest Hargs). simpl.
  unfold mbind, M_bind.
  rewrite initTempDir_skipped by done. simpl.
  destruct (config_InitConfig W (set_rp PInstrument st)) as [[[e|]|o] st']; done.
Qed.

(** C2. When the [remix] handler returns an error, [main] writes the text
    of the error, which for a [PlentifulError] is its reason, a newline
    and its stack trace, and then a newline to the standard error stream,
    and ends the process with status 1. Nothing else is written and the
    process does not end in [fatal]. *)
Theorem remix_failure_bypasses_fatal (W : World) (st st1 st2 : State)
    (tool : string) (rest : list string) (err : error) (text : string) :
  os_Args W = tool :: "remix" :: rest →
  config_InitConfig W (set_rp PInstrument st) = (Val None, st1) →
  instrument_Instrument W st1 = (Val (Some err), st2) →
  match err with
  | ErrPlentiful p =>
      ∃ e, heap st2 !! p = Some e ∧ text = Reason e ++ fmt.nl ++ Cause e
  | ErrForeign f => text = foreign_message f
  end →
  run W st = (Exit 1, set_stderr (stderr st2 ++ text ++ fmt.nl) st2).
Proof.
  intros Hargs Hinit Hremix Htext.
  unfold run, main. rewrite Hargs. simpl.
  unfold mbind at 1. unfold M_bind at 1.
  rewrite (initEnv_remix W st tool rest Hargs), Hinit. simpl.
  unfold os_Args_at. rewrite Hargs. simpl.
  unfold mbind, M_bind. simpl. rewrite Hremix.
  destruct err as [p | f]; simpl.
  - destruct Htext as (e & He & ->).
    unfold errc.Error, mbind, M_bind. rewrite (deref_run _ _ _ He). done.
  - by rewrite Htext.
Qed.

(** A [remix] run whose handler fails with [compile failed]. *)
Lemma remix_failure_bypasses_fatal_witness :
  run (sample_world ["otel"; "remix"] quiet quiet (raise_plentiful compile_error))
      (initial_state (Dir true ∅))
  = (Exit 1,
     set_stderr ("compile failed" ++ fmt.nl ++ "goroutine 1 [running]:" ++ fmt.nl)
       (set_heap {[ 1%positive := compile_error ]}
          (set_rp PInstrument (initial_state (Dir true ∅))))).
Proof.
  apply (remix_failure_bypasses_fatal
           (sample_world ["otel"; "remix"] quiet quiet (raise_plentiful compile_error))
           (initial_state (Dir true ∅))
           (set_rp PInstrument (initial_state (Dir true ∅)))
           (set_heap {[ 1%positive := compile_error ]}
              (set_rp PInstrument (initial_state (Dir true ∅))))
           "otel" [] (ErrPlentiful 1)
           ("compile failed" ++ fmt.nl ++ "goroutine 1 [running]:")).
  - reflexivity.
  - reflexivity.
  - vm_compute. reflexivity.
  - exists compile_error. split; reflexivity.
Defined.

Lemma main_no_command (W : World) (st : State) :
  (length (os_Args W) < 2)%nat →
  run W st = (Exit 0, usage_printed W st).
Proof.
  intros Hlen. unfold run, main.
  apply Nat.ltb_lt in Hlen. rewrite Hlen.
  reflexivity.
Qed.

Lemma main_unknown_command (W : World) (st st1 : State)
    (tool sub : string) (rest : list string) :
  os_Args W = tool :: sub :: rest →
  sub ∉ known_subcommands →
  initEnv W st = (Val None, st1) →
  run W st = (Exit 0, usage_printed W st1).
Proof.
  intros Hargs Hsub Hinit. unfold run, main. rewrite Hargs. simpl.
  unfold mbind at 1. unfold M_bind at 1. rewrite Hinit. simpl.
  unfold os_Args_at. rewrite Hargs. simpl.
  unfold known_subcommands in Hsub.
  rewrite !not_elem_of_cons in Hsub. destruct Hsub as (Hv & Hs & Hg & Hr & _).
  apply String.eqb_neq in Hv, Hs, Hg, Hr.
  unfold mbind, M_bind. simpl. rewrite Hv, Hs, Hg, Hr. reflexivity.
Qed.

(** With an unknown sub-command and a working directory in which nothing
    can be made, the run ends in [fatal] and prints no usage text. *)
Lemma usage_on_unknown_command_counterexample :
  ("help" ∉ known_subcommands)
  ∧ run (sample_world ["otel"; "help"] quiet quiet quiet) (initial_state (Dir false ∅))
    = (LogFatal
         ("===== Environments =====" ++ fmt.nl
          ++ "command    : otel help" ++ fmt.nl
          ++ "errorLog   : /tmp/otel.log" ++ fmt.nl
          ++ "workDir    : /home/dev/app" ++ fmt.nl
          ++ "toolchain  : linux/amd64, go1.22.0, 0.4.0" ++ fmt.nl
          ++ fmt.nl ++ "===== Fatal Error ======" ++ fmt.nl
          ++ fmt.nl ++ "mkdir .otel-build: permission denied"),
       set_heap {[ 1%positive :=
                     mkPlentifulError "mkdir .otel-build: permission denied"
                       "goroutine 1 [running]:" (Some ∅) ]}
         (initial_state (Dir false ∅))).
Proof.
  split.
  - unfold known_subcommands. rewrite !not_elem_of_cons. repeat split; try done.
    apply not_elem_of_nil.
  - vm_compute. reflexivity.
Qed.

(** C8, as the code has it. Started without a sub-command, the tool
    prints the usage text, with its own name filled in, and ends with
    status 0. Started with a sub-command that is none of [version],
    [set], [go] and [remix], it does the same once [initEnv] has
    succeeded; the state it ends in is the one [initEnv] left, with the
    usage text printed. *)
Theorem usage_on_no_or_unknown_command (W : World) (st : State) :
  ((length (os_Args W) < 2)%nat →
   run W st = (Exit 0, usage_printed W st))
  ∧ (∀ (tool sub : string) (rest : list string) (st1 : State),
       os_Args W = tool :: sub :: rest →
       sub ∉ known_subcommands →
       initEnv W st = (Val None, st1) →
       run W st = (Exit 0, usage_printed W st1)).
Proof.
  split.
  - apply main_no_command.
  - intros tool sub rest st1. apply main_unknown_command.
Qed.

(** Without arguments, and with the unknown sub-command [help]. *)
Lemma usage_on_no_or_unknown_command_witness :
  run (sample_world ["otel"] quiet quiet quiet) (initial_state (Dir true ∅))
  = (Exit 0,
     usage_printed (sample_world ["otel"] quiet quiet quiet) (initial_state (Dir true ∅)))
  ∧ ∃ st1,
      initEnv (sample_world ["otel"; "help"] quiet quiet quiet) (initial_state (Dir true ∅))
      = (Val None, st1)
      ∧ run (sample_world ["otel"; "help"] quiet quiet quiet) (initial_state (Dir true ∅))
        = (Exit 0, usage_printed (sample_world ["otel"; "help"] quiet quiet quiet) st1).
Proof.
  split.
  - apply (proj1 (usage_on_no_or_unknown_command
                    (sample_world ["otel"] quiet quiet quiet) (initial_state (Dir true ∅)))).
    simpl. lia.
  - eexists. split; [vm_compute; reflexivity |].
    apply (proj2 (usage_on_no_or_unknown_command
                    (sample_world ["otel"; "help"] quiet quiet quiet)
                    (initial_state (Dir true ∅))) "otel" "help" []).
    + reflexivity.
    + unfold known_subcommands. rewrite !not_elem_of_cons. repeat split; try done.
      apply not_elem_of_nil.
    + vm_compute. reflexivity.
Defined.

(** The usage text as the tool [otel] prints it. *)
Example usage_text_printed :
  stdout (run (sample_world ["otel"] quiet quiet quiet) (initial_state (Dir true ∅))).2
  = "Usage: otel <command> [args]
Example:
	otel go build
	otel go install
	otel go build main.go
	otel version
	otel set -verbose -rule=custom.json

Command:
	version    print the version
	set        set the configuration
	go         build the Go application
".
Proof. vm_compute. reflexivity. Qed.

(** ** The directory tree *)

Lemma lookup_path_app (p q : list string) (n : node) :
  os.lookup_path (p ++ q) n = os.lookup_path p n ≫= os.lookup_path q.
Proof.
  revert n. induction p as [|c p IH]; intros n; [done |].
  destruct n as [|w es]; [done |]. simpl.
  destruct (es !! c) as [child|]; simpl; [apply IH | done].
Qed.

(** A path that leads to a directory starts in a directory. *)
Lemma lookup_path_cons_inv (c : string) (p : list string) (n d : node) :
  os.lookup_path (c :: p) n = Some d →
  ∃ w es child,
    n = Dir w es ∧ es !! c = Some child ∧ os.lookup_path p child = Some d.
Proof.
  destruct n as [|w es]; [done |]. simpl.
  destruct (es !! c) as [child|] eqn:E; [| done].
  simpl. intros H. by exists w, es, child.
Qed.

(** [MkdirAll] below an existing directory works inside that directory. *)
Lemma mkdir_all_under (pre root q : list string) (n d : node) :
  os.lookup_path root n = Some d →
  ∃ n',
    os.mkdir_all pre (root ++ q) n = ((os.mkdir_all (pre ++ root) q d).1, n')
    ∧ os.lookup_path root n' = Some (os.mkdir_all (pre ++ root) q d).2.
Proof.
  revert pre n. induction root as [|c r IH]; intros pre n Hd.
  - injection Hd as ->. rewrite app_nil_r. simpl.
    exists (os.mkdir_all pre q d).2. split; [by destruct (os.mkdir_all pre q d) | done].
  - apply lookup_path_cons_inv in Hd as (w & es & child & -> & Hc & Hd).
    destruct (IH (pre ++ [c])%list child Hd) as (child' & Hrun & Hlook).
    rewrite <- app_assoc in Hrun, Hlook. simpl in Hrun, Hlook.
    exists (Dir w (<[c := child']> es)). simpl. rewrite Hc, Hrun. split; [done |].
    by rewrite lookup_insert_eq.
Qed.

(** [RemoveAll] below an existing directory works inside that directory. *)
Lemma remove_all_under (whole root q : list string) (n d : node) :
  q ≠ [] →
  os.lookup_path root n = Some d →
  ∃ n',
    os.remove_all whole (root ++ q) n = ((os.remove_all whole q d).1, n')
    ∧ os.lookup_path root n' = Some (os.remove_all whole q d).2.
Proof.
  intros Hq. revert n. induction root as [|c r IH]; intros n Hd.
  - injection Hd as ->. simpl.
    exists (os.remove_all whole q d).2. split; [by destruct (os.remove_all whole q d) | done].
  - apply lookup_path_cons_inv in Hd as (w & es & child & -> & Hc & Hd).
    destruct (IH child Hd) as (child' & Hrun & Hlook).
    exists (Dir w (<[c := child']> es)). simpl. rewrite Hc.
    destruct (r ++ q)%list as [|x l] eqn:E.
    { apply app_eq_nil in E as [_ ?]. done. }
    rewrite Hrun. split; [done |]. by rewrite lookup_insert_eq.
Qed.

(** A successful [MkdirAll] of a path that was not there leaves a
    writable, empty directory at the path. *)
Lemma mkdir_all_fresh (pre p : list string) (n n' : node) :
  os.mkdir_all pre p n = (None, n') →
  os.lookup_path p n = None ∨ n = Dir true ∅ →
  os.lookup_path p n' = Some (Dir true ∅).
Proof.
  revert pre n n'. induction p as [|c p IH]; intros pre n n' Hrun Hn.
  - destruct Hn as [Hn | ->]; [done |]. simpl in Hrun. by injection Hrun as <-.
  - destruct n as [|w es]; [done |]. simpl in Hrun.
    destruct (es !! c) as [child|] eqn:Hc.
    + destruct (os.mkdir_all (pre ++ [c]) p child) as [r child'] eqn:Hrec.
      injection Hrun as -> <-. simpl. rewrite lookup_insert_eq. simpl.
      apply (IH _ _ _ Hrec). destruct Hn as [Hn | Hn].
      * left. simpl in Hn. by rewrite Hc in Hn.
      * injection Hn as -> ->. by rewrite lookup_empty in Hc.
    + destruct w; [| done].
      destruct (os.mkdir_all (pre ++ [c]) p (Dir true ∅)) as [r child'] eqn:Hrec.
      injection Hrun as -> <-. simpl. rewrite lookup_insert_eq. simpl.
      apply (IH _ _ _ Hrec). by right.
Qed.

Lemma purge_empty (w : bool) : os.purge (Dir w ∅) = Dir w ∅.
Proof. simpl. by rewrite omap_empty. Qed.

Lemma reset_entry_writable (whole pre : list string) (name : string)
    (es : gmap string node) :
  (∀ child, es !! name = Some child → os.removable (os.purge child) = true) →
  reset_entry whole pre name (Dir true es) = Dir true (<[name := Dir true ∅]> es).
Proof.
  intros Hpurge. unfold reset_entry. simpl.
  destruct (es !! name) as [child|] eqn:Hc.
  - rewrite (Hpurge child eq_refl). simpl.
    rewrite lookup_delete_eq. simpl. by rewrite insert_delete_eq.
  - simpl. rewrite Hc. done.
Qed.

Lemma resetSubdir_run (W : World) (st : State) (name : string) (d : node) :
  os.lookup_path (util_TempBuildDir W) (fs st) = Some d →
  ∃ n',
    resetSubdir W name st = (Val tt, set_fs n' st)
    ∧ os.lookup_path (util_TempBuildDir W) n'
      = Some (reset_entry (util.GetTempBuildDirWith W name) (util_TempBuildDir W) name d).
Proof.
  intros Hd. unfold resetSubdir, os.RemoveAll, os.MkdirAll, util.GetTempBuildDirWith.
  destruct (remove_all_under (util_TempBuildDir W ++ [name]) (util_TempBuildDir W)
              [name] (fs st) d) as (n1 & Hrm & Hlook1); [done | done |].
  destruct (mkdir_all_under [] (util_TempBuildDir W) [name] n1 _ Hlook1)
    as (n2 & Hmk & Hlook2).
  exists n2. unfold mbind, M_bind, mret, M_ret. rewrite Hrm. simpl. rewrite Hmk. simpl.
  split; [done |]. by rewrite Hlook2.
Qed.

(** The loop of [initTempDir] never fails, whatever becomes of the
    removals and the makings. *)
Lemma resetSubdir_total (W : World) (st : State) (name : string) :
  ∃ n', resetSubdir W name st = (Val tt, set_fs n' st).
Proof.
  unfold resetSubdir, os.RemoveAll, os.MkdirAll. run_M.
  destruct (os.remove_all _ _ (fs st)) as [r1 n1]. simpl.
  destruct (os.mkdir_all _ _ n1) as [r2 n2]. simpl. by exists n2.
Qed.

(** ** Resetting the workspace *)

Lemma reset_loop_run (W : World) (st : State) (d : node) :
  os.lookup_path (util_TempBuildDir W) (fs st) = Some d →
  ∃ n',
    for_each [util.phase_name W PPreprocess; util.phase_name W PInstrument]
      (resetSubdir W) st = (Val tt, set_fs n' st)
    ∧ os.lookup_path (util_TempBuildDir W) n' = Some (reset_root W d).
Proof.
  intros Hd. simpl.
  destruct (resetSubdir_run W st (util_PPreprocess W) d Hd) as (n1 & Hrun1 & Hlook1).
  destruct (resetSubdir_run W (set_fs n1 st) (util_PInstrument W) _ Hlook1)
    as (n2 & Hrun2 & Hlook2).
  exists n2. unfold mbind, M_bind, mret, M_ret. rewrite Hrun1, Hrun2. done.
Qed.

Lemma reset_loop_total (W : World) (st : State) :
  ∃ n',
    for_each [util.phase_name W PPreprocess; util.phase_name W PInstrument]
      (resetSubdir W) st = (Val tt, set_fs n' st).
Proof.
  simpl.
  destruct (resetSubdir_total W st (util_PPreprocess W)) as (n1 & Hrun1).
  destruct (resetSubdir_total W (set_fs n1 st) (util_PInstrument W)) as (n2 & Hrun2).
  exists n2. unfold mbind, M_bind, mret, M_ret. rewrite Hrun1, Hrun2. done.
Qed.

Lemma initTempDir_present (W : World) (st : State) (d : node) :
  rp st ≠ PInstrument →
  os.lookup_path (util_TempBuildDir W) (fs st) = Some d →
  ∃ n',
    initTempDir W st = (Val None, set_fs n' st)
    ∧ os.lookup_path (util_TempBuildDir W) n' = Some (reset_root W d).
Proof.
  intros Hrp Hd. destruct (reset_loop_run W st d Hd) as (n' & Hloop & Hlook).
  exists n'. split; [| done].
  unfold initTempDir, util.GetRunPhase, util.PathNotExists.
  remember (for_each _ _) as loop eqn:Hl.
  unfold mbind, M_bind, mret, M_ret, get. simpl.
  rewrite bool_decide_eq_false_2 by done.
  rewrite bool_decide_eq_false_2 by (by rewrite Hd).
  subst loop. by rewrite Hloop.
Qed.

Lemma initTempDir_made (W : World) (st : State) (n1 : node) :
  rp st ≠ PInstrument →
  os.lookup_path (util_TempBuildDir W) (fs st) = None →
  os.mkdir_all [] (util_TempBuildDir W) (fs st) = (None, n1) →
  ∃ n',
    initTempDir W st = (Val None, set_fs n' st)
    ∧ os.lookup_path (util_TempBuildDir W) n' = Some (reset_root W (Dir true ∅)).
Proof.
  intros Hrp Habsent Hmk.
  assert (Hroot : os.lookup_path (util_TempBuildDir W) (fs (set_fs n1 st)) = Some (Dir true ∅)).
  { simpl. apply (mkdir_all_fresh _ _ _ _ Hmk). by left. }
  destruct (reset_loop_run W (set_fs n1 st) _ Hroot) as (n' & Hloop & Hlook).
  exists n'. split; [| done].
  unfold initTempDir, util.GetRunPhase, util.PathNotExists, os.MkdirAll.
  remember (for_each _ _) as loop eqn:Hl.
  unfold mbind, M_bind, mret, M_ret, get. simpl.
  rewrite bool_decide_eq_false_2 by done.
  rewrite bool_decide_eq_true_2 by done.
  rewrite Hmk. simpl.
  subst loop. by rewrite Hloop.
Qed.

Lemma initTempDir_not_made (W : World) (st : State) (e : PathError) (n1 : node) :
  rp st ≠ PInstrument →
  os.lookup_path (util_TempBuildDir W) (fs st) = None →
  os.mkdir_all [] (util_TempBuildDir W) (fs st) = (Some e, n1) →
  ∃ p stack,
    initTempDir W st
    = (Val (Some (ErrPlentiful p)),
       set_heap (<[p := mkPlentifulError (os.PathError_Error e) stack (Some ∅)]> (heap st))
         (set_fs n1 st))
    ∧ heap st !! p = None.
Proof.
  intros Hrp Habsent Hmk.
  destruct (New_run W (set_fs n1 st) (os.PathError_Error e)) as (p & stack & Hnew & Hfresh).
  exists p, stack. split; [| done].
  unfold initTempDir, util.GetRunPhase, util.PathNotExists, os.MkdirAll. run_M.
  rewrite bool_decide_eq_false_2 by done.
  rewrite bool_decide_eq_true_2 by done.
  rewrite Hmk. simpl. by rewrite Hnew.
Qed.

Lemma reset_root_writable (W : World) (es : gmap string node) :
  (∀ name child,
     name ∈ [util_PPreprocess W; util_PInstrument W] →
     es !! name = Some child →
     os.removable (os.purge child) = true) →
  reset_root W (Dir true es)
  = Dir true (<[util_PInstrument W := Dir true ∅]>
                (<[util_PPreprocess W := Dir true ∅]> es)).
Proof.
  intros Hpurge. unfold reset_root.
  rewrite (reset_entry_writable _ _ (util_PPreprocess W) es).
  - apply reset_entry_writable. intros child.
    rewrite lookup_insert. case_decide.
    + intros [= <-]. by rewrite purge_empty.
    + apply Hpurge. set_solver.
  - intros child. apply Hpurge. set_solver.
Qed.

Lemma workspace_clean_root (W : World) (n : node) (es : gmap string node) :
  os.lookup_path (util_TempBuildDir W) n
  = Some (Dir true (<[util_PInstrument W := Dir true ∅]>
                      (<[util_PPreprocess W := Dir true ∅]> es))) →
  workspace_clean W n.
Proof.
  intros Hroot. unfold workspace_clean, util.GetTempBuildDirWith.
  rewrite !lookup_path_app, Hroot. simpl. split.
  - rewrite lookup_insert. case_decide as Heq.
    + done.
    + by rewrite lookup_insert_eq.
  - by rewrite lookup_insert_eq.
Qed.

(** ** Work done between two resets *)

Lemma map_fold_max_ge (f : node → nat) (es : gmap string node) (i : string) (c : node) :
  es !! i = Some c →
  (f c ≤ map_fold (λ _ child h, f child `max` h) 0 es)%nat.
Proof.
  induction es as [|j x m Hj Hfirst IH] using map_first_key_ind; [done |].
  rewrite map_fold_insert_first_key by done.
  rewrite lookup_insert. case_decide.
  - intros [= ->]. lia.
  - intros Hc. specialize (IH Hc). lia.
Qed.

Lemma node_ind_below (P : node → Prop) :
  P File →
  (∀ w es, map_Forall (λ _ c, P c) es → P (Dir w es)) →
  ∀ h n, (node_height n < h)%nat → P n.
Proof.
  intros HF HD h. induction h as [|h IH]; intros n Hn; [lia |].
  destruct n as [|w es]; [done |].
  apply HD. intros i c Hc. apply IH.
  simpl in Hn. pose proof (map_fold_max_ge node_height es i c Hc). lia.
Qed.

(** Induction on an object: a property that holds of regular files, and
    of a directory whenever it holds of all its entries, holds of every
    object. *)
Lemma node_ind_entries (P : node → Prop) :
  P File →
  (∀ w es, map_Forall (λ _ c, P c) es → P (Dir w es)) →
  ∀ n, P n.
Proof.
  intros HF HD n. apply (node_ind_below P HF HD (S (node_height n))). lia.
Qed.

Lemma map_fold_andb (f : node → bool) (es : gmap string node) :
  map_fold (λ _ child b, f child && b) true es = true
  ↔ map_Forall (λ _ c, f c = true) es.
Proof.
  induction es as [|j x m Hj Hfirst IH] using map_first_key_ind.
  - rewrite map_fold_empty. split; [intros _; apply map_Forall_empty | done].
  - rewrite map_fold_insert_first_key by done.
    rewrite andb_true_iff, IH, map_Forall_insert by done. done.
Qed.

Lemma all_writable_Dir (w : bool) (es : gmap string node) :
  all_writable (Dir w es) = true
  ↔ w = true ∧ map_Forall (λ _ c, all_writable c = true) es.
Proof. simpl. by rewrite andb_true_iff, map_fold_andb. Qed.

(** An object in which every directory can be written can be removed
    with all that is in it. *)
Lemma all_writable_purge (n : node) :
  all_writable n = true → os.removable (os.purge n) = true.
Proof.
  induction n as [|w es IH] using node_ind_entries; [done |].
  intros [-> Hes]%all_writable_Dir. simpl. apply bool_decide_eq_true_2.
  apply map_eq. intros i. rewrite lookup_omap, lookup_empty.
  destruct (es !! i) as [c|] eqn:Hc; [| done]. simpl.
  by rewrite (IH i c Hc (Hes i c Hc)).
Qed.

Lemma write_file_all_writable (p : list string) (n : node) :
  all_writable n = true → all_writable (os.write_file p n) = true.
Proof.
  revert n. induction p as [|x p IH]; intros n Hn.
  - by destruct n.
  - destruct n as [|w es]; [done |].
    apply all_writable_Dir in Hn as [-> Hes].
    destruct p as [|y p].
    + simpl. destruct (es !! x) eqn:Hx; [by apply all_writable_Dir |].
      apply all_writable_Dir. split; [done |]. by apply map_Forall_insert_2.
    + change (os.write_file (x :: y :: p) (Dir true es))
        with (match es !! x with
              | None => Dir true es
              | Some child => Dir true (<[x := os.write_file (y :: p) child]> es)
              end).
      destruct (es !! x) as [child|] eqn:Hx; [| by apply all_writable_Dir].
      apply all_writable_Dir. split; [done |].
      apply map_Forall_insert_2; [| done]. apply IH. by apply (Hes x).
Qed.

Lemma mkdir_all_all_writable (pre p : list string) (n : node) :
  all_writable n = true → all_writable (os.mkdir_all pre p n).2 = true.
Proof.
  revert pre n. induction p as [|x p IH]; intros pre n Hn.
  - by destruct n.
  - destruct n as [|w es]; [done |].
    apply all_writable_Dir in Hn as [-> Hes]. simpl.
    destruct (es !! x) as [child|] eqn:Hx.
    + specialize (IH (pre ++ [x])%list child (Hes x child Hx)).
      destruct (os.mkdir_all (pre ++ [x]) p child) as [r child']. cbn [snd] in *.
      apply all_writable_Dir. split; [done |]. by apply map_Forall_insert_2.
    + specialize (IH (pre ++ [x])%list (Dir true ∅) eq_refl).
      destruct (os.mkdir_all (pre ++ [x]) p (Dir true ∅)) as [r child']. cbn [snd] in *.
      apply all_writable_Dir. split; [done |]. by apply map_Forall_insert_2.
Qed.

(** A write changes the directory at [root] only when it goes through
    [root], and then it is a write inside that directory. *)
Lemma write_file_lookup (root p : list string) (n d : node) :
  os.lookup_path root n = Some d →
  os.lookup_path root (os.write_file p n) = Some d
  ∨ ∃ q, os.lookup_path root (os.write_file p n) = Some (os.write_file q d).
Proof.
  revert p n. induction root as [|c r IH]; intros p n Hd.
  - injection Hd as ->. right. by exists p.
  - apply lookup_path_cons_inv in Hd as (w & es & child & -> & Hc & Hd).
    destruct p as [|x p]; [left; simpl; by rewrite Hc |].
    destruct p as [|y p].
    + simpl. destruct (es !! x) eqn:Hx; [left; simpl; by rewrite Hc |].
      destruct w; [| left; simpl; by rewrite Hc].
      left. simpl. rewrite lookup_insert_ne by congruence. by rewrite Hc.
    + simpl. destruct (es !! x) as [child2|] eqn:Hx; [| left; simpl; by rewrite Hc].
      destruct (decide (x = c)) as [-> | Hne].
      * assert (child2 = child) as -> by congruence.
        destruct (IH (y :: p) child Hd) as [H | [q H]].
        -- left. simpl. rewrite lookup_insert_eq. done.
        -- right. exists q. simpl. rewrite lookup_insert_eq. done.
      * left. simpl. rewrite lookup_insert_ne by done. by rewrite Hc.
Qed.

(** The same for the making of directories. *)
Lemma mkdir_all_lookup (root pre p : list string) (n d : node) :
  os.lookup_path root n = Some d →
  os.lookup_path root (os.mkdir_all pre p n).2 = Some d
  ∨ ∃ pre' q, os.lookup_path root (os.mkdir_all pre p n).2
              = Some (os.mkdir_all pre' q d).2.
Proof.
  revert pre p n. induction root as [|c r IH]; intros pre p n Hd.
  - injection Hd as ->. right. by exists pre, p.
  - apply lookup_path_cons_inv in Hd as (w & es & child & -> & Hc & Hd).
    destruct p as [|x p]; [left; simpl; by rewrite Hc |].
    simpl. destruct (es !! x) as [child2|] eqn:Hx.
    + destruct (os.mkdir_all (pre ++ [x]) p child2) as [res child2'] eqn:Hrec.
      destruct (decide (x = c)) as [-> | Hne].
      * assert (child2 = child) as -> by congruence.
        destruct (IH (pre ++ [c])%list p child Hd) as [H | (pre' & q & H)];
          rewrite Hrec in H; simpl in H.
        -- left. simpl. by rewrite lookup_insert_eq.
        -- right. exists pre', q. simpl. by rewrite lookup_insert_eq.
      * left. simpl. rewrite lookup_insert_ne by done. by rewrite Hc.
    + destruct w; [| left; simpl; by rewrite Hc].
      destruct (os.mkdir_all (pre ++ [x]) p (Dir true ∅)) as [res child2'].
      left. simpl. rewrite lookup_insert_ne by congruence. by rewrite Hc.
Qed.

(** Inside the root of the workspace, a write or the making of
    directories keeps the named subdirectories writable throughout. *)
Lemma write_file_root_in_use (names : list string) (q : list string)
    (es : gmap string node) :
  (∀ name, name ∈ names → ∃ c, es !! name = Some c ∧ all_writable c = true) →
  ∃ es', os.write_file q (Dir true es) = Dir true es'
    ∧ ∀ name, name ∈ names → ∃ c, es' !! name = Some c ∧ all_writable c = true.
Proof.
  intros Hsub. destruct q as [|x q]; [by exists es |].
  destruct q as [|y q].
  - simpl. destruct (es !! x) eqn:Hx; [by exists es |].
    exists (<[x := File]> es). split; [done |].
    intros name Hname. destruct (Hsub name Hname) as (c & Hc & Hw).
    exists c. split; [| done]. rewrite lookup_insert_ne by congruence. done.
  - simpl. destruct (es !! x) as [child|] eqn:Hx; [| by exists es].
    exists (<[x := os.write_file (y :: q) child]> es). split; [done |].
    intros name Hname. destruct (Hsub name Hname) as (c & Hc & Hw).
    rewrite lookup_insert. case_decide as Heq.
    + subst name. assert (c = child) as -> by congruence.
      eexists. split; [done |]. by apply write_file_all_writable.
    + by exists c.
Qed.

Lemma mkdir_all_root_in_use (names : list string) (pre q : list string)
    (es : gmap string node) :
  (∀ name, name ∈ names → ∃ c, es !! name = Some c ∧ all_writable c = true) →
  ∃ es', (os.mkdir_all pre q (Dir true es)).2 = Dir true es'
    ∧ ∀ name, name ∈ names → ∃ c, es' !! name = Some c ∧ all_writable c = true.
Proof.
  intros Hsub. destruct q as [|x q]; [by exists es |].
  simpl. destruct (es !! x) as [child|] eqn:Hx.
  - pose proof (mkdir_all_all_writable (pre ++ [x]) q child) as Hw'.
    destruct (os.mkdir_all (pre ++ [x]) q child) as [res child']. simpl in *.
    exists (<[x := child']> es). split; [done |].
    intros name Hname. destruct (Hsub name Hname) as (c & Hc & Hw).
    rewrite lookup_insert. case_decide as Heq.
    + subst name. assert (c = child) as -> by congruence.
      eexists. split; [done |]. by apply Hw'.
    + by exists c.
  - destruct (os.mkdir_all (pre ++ [x]) q (Dir true ∅)) as [res child']. simpl.
    exists (<[x := child']> es). split; [done |].
    intros name Hname. destruct (Hsub name Hname) as (c & Hc & Hw).
    exists c. split; [| done]. rewrite lookup_insert_ne by congruence. done.
Qed.

Lemma perform_in_use (W : World) (a : activity) (n : node) :
  workspace_in_use W n → workspace_in_use W (perform a n).
Proof.
  intros (es & Hroot & Hsub). destruct a as [p | p]; simpl.
  - destruct (write_file_lookup _ p _ _ Hroot) as [H | [q H]]; [by exists es |].
    destruct (write_file_root_in_use _ q es Hsub) as (es' & Heq & Hsub').
    exists es'. by rewrite H, Heq.
  - destruct (mkdir_all_lookup _ [] p _ _ Hroot) as [H | (pre' & q & H)]; [by exists es |].
    destruct (mkdir_all_root_in_use _ pre' q es Hsub) as (es' & Heq & Hsub').
    exists es'. by rewrite H, Heq.
Qed.

Lemma perform_all_in_use (W : World) (acts : list activity) (n : node) :
  workspace_in_use W n → workspace_in_use W (perform_all acts n).
Proof.
  revert n. induction acts as [|a acts IH]; intros n Hn; [done |].
  simpl. apply IH. by apply perform_in_use.
Qed.

Lemma workspace_in_use_resettable (W : World) (n : node) :
  workspace_in_use W n → workspace_resettable W n.
Proof.
  intros (es & Hroot & Hsub). unfold workspace_resettable. rewrite Hroot.
  split; [done |]. intros name child Hname Hchild.
  destruct (Hsub name Hname) as (c & Hc & Hw).
  assert (c = child) as -> by congruence. by apply all_writable_purge.
Qed.

(** After a reset that works the workspace is ready for use. *)
Lemma initTempDir_in_use (W : World) (st : State) :
  rp st ≠ PInstrument →
  workspace_resettable W (fs st) →
  ∃ n',
    initTempDir W st = (Val None, set_fs n' st)
    ∧ workspace_clean W n'
    ∧ workspace_in_use W n'.
Proof.
  intros Hrp Hres.
  assert (Huse : ∀ n' es,
    os.lookup_path (util_TempBuildDir W) n'
    = Some (Dir true (<[util_PInstrument W := Dir true ∅]>
                        (<[util_PPreprocess W := Dir true ∅]> es))) →
    workspace_in_use W n').
  { intros n' es Hlook. eexists. split; [exact Hlook |].
    intros name Hname. exists (Dir true ∅). split; [| done].
    apply elem_of_cons in Hname as [-> | Hname].
    - rewrite lookup_insert. case_decide; [done |]. by rewrite lookup_insert_eq.
    - apply list_elem_of_singleton in Hname as ->. by rewrite lookup_insert_eq. }
  unfold workspace_resettable in Hres.
  destruct (os.lookup_path (util_TempBuildDir W) (fs st)) as [[|w es]|] eqn:Hroot.
  - done.
  - destruct Hres as [-> Hpurge].
    destruct (initTempDir_present W st _ Hrp Hroot) as (n' & Hrun & Hlook).
    exists n'. split; [done |].
    rewrite (reset_root_writable W es Hpurge) in Hlook.
    split; [by apply workspace_clean_root in Hlook | by apply Huse in Hlook].
  - destruct (os.mkdir_all [] (util_TempBuildDir W) (fs st)) as [r n1] eqn:Hmk.
    simpl in Hres. subst r.
    destruct (initTempDir_made W st n1 Hrp Hroot Hmk) as (n' & Hrun & Hlook).
    exists n'. split; [done |].
    rewrite (reset_root_writable W ∅) in Hlook by (intros ? ? _; by rewrite lookup_empty).
    split; [by apply workspace_clean_root in Hlook | by apply Huse in Hlook].
Qed.

(** C5, as the code has it. Outside the [Instrument] phase, and when the
    workspace can be reset (its root is missing and can be made, or is a
    writable directory in which the contents of the two named
    subdirectories can be removed), [initTempDir] succeeds and leaves
    both named subdirectories there and empty. Called again, after files
    have been written and directories made anywhere below the working
    directory, it again succeeds and leaves them there and empty. *)
Theorem initTempDir_idempotent (W : World) (st : State) (between : list activity) :
  rp st ≠ PInstrument →
  workspace_resettable W (fs st) →
  ∃ n1 n2,
    initTempDir W st = (Val None, set_fs n1 st)
    ∧ workspace_clean W n1
    ∧ initTempDir W (set_fs (perform_all between n1) (set_fs n1 st))
      = (Val None, set_fs n2 st)
    ∧ workspace_clean W n2.
Proof.
  intros Hrp Hres.
  destruct (initTempDir_in_use W st Hrp Hres) as (n1 & Hrun1 & Hclean1 & Huse1).
  destruct (initTempDir_in_use W (set_fs (perform_all between n1) (set_fs n1 st)))
    as (n2 & Hrun2 & Hclean2 & _).
  - done.
  - simpl. by apply workspace_in_use_resettable, perform_all_in_use.
  - by exists n1, n2.
Qed.

Lemma stale_cwd_resettable :
  workspace_resettable (sample_world ["otel"; "go"; "build"] quiet quiet quiet) stale_cwd.
Proof.
  unfold workspace_resettable. simpl.
  change (os.lookup_path [".otel-build"] stale_cwd)
    with (Some (Dir true {[ "preprocess" := Dir true {[ "stale.go" := File ]} ]})).
  split; [done |]. intros name child Hname.
  apply elem_of_cons in Hname as [-> | Hname].
  - intros [= <-]. vm_compute. reflexivity.
  - apply list_elem_of_singleton in Hname as ->. intros Hc. vm_compute in Hc. done.
Defined.

(** In a workspace with a stale file, with files written and directories
    made between the calls. *)
Lemma initTempDir_idempotent_witness :
  workspace_resettable (sample_world ["otel"; "go"; "build"] quiet quiet quiet) stale_cwd
  ∧ ∃ n1 n2,
      initTempDir (sample_world ["otel"; "go"; "build"] quiet quiet quiet)
        (set_rp PPreprocess (initial_state stale_cwd))
      = (Val None, set_fs n1 (set_rp PPreprocess (initial_state stale_cwd)))
      ∧ workspace_clean (sample_world ["otel"; "go"; "build"] quiet quiet quiet) n1
      ∧ workspace_clean (sample_world ["otel"; "go"; "build"] quiet quiet quiet) n2.
Proof.
  split; [exact stale_cwd_resettable |].
  destruct (initTempDir_idempotent
              (sample_world ["otel"; "go"; "build"] quiet quiet quiet)
              (set_rp PPreprocess (initial_state stale_cwd))
              [WriteFile [".otel-build"; "preprocess"; "main.go"];
               MakeDirs [".otel-build"; "instrument"; "pkg"; "runtime"];
               WriteFile [".otel-build"; "instrument"; "pkg"; "runtime"; "proc.o"]])
    as (n1 & n2 & H1 & Hc1 & H2 & Hc2).
  - simpl. done.
  - exact stale_cwd_resettable.
  - by exists n1, n2.
Defined.

(** The reset of a workspace with a stale file, computed. *)
Example initTempDir_stale :
  fs (initTempDir (sample_world ["otel"; "go"; "build"] quiet quiet quiet)
        (set_rp PPreprocess (initial_state stale_cwd))).2
  = Dir true {[ ".otel-build" :=
      Dir true {[ "preprocess" := Dir true ∅; "instrument" := Dir true ∅ ]} ]}.
Proof. vm_compute. reflexivity. Qed.

(** Where a leftover cannot be removed, [initTempDir] reports success and
    the subdirectory keeps its contents. *)
Lemma locked_cwd_kept :
  initTempDir (sample_world ["otel"; "go"; "build"] quiet quiet quiet)
    (set_rp PPreprocess (initial_state locked_cwd))
  = (Val None,
     set_fs
       (Dir true {[ ".otel-build" :=
          Dir true {[ "preprocess" :=
                        Dir true {[ "cache" := Dir false {[ "old.o" := File ]} ]};
                      "instrument" := Dir true ∅ ]} ]})
       (set_rp PPreprocess (initial_state locked_cwd))).
Proof. vm_compute. reflexivity. Qed.

Lemma locked_cwd_not_clean :
  ¬ workspace_clean (sample_world ["otel"; "go"; "build"] quiet quiet quiet)
      (Dir true {[ ".otel-build" :=
          Dir true {[ "preprocess" :=
                        Dir true {[ "cache" := Dir false {[ "old.o" := File ]} ]};
                      "instrument" := Dir true ∅ ]} ]}).
Proof.
  intros [H _]. vm_compute in H. discriminate H.
Qed.

(** Where the name of the workspace is taken by a regular file,
    [initTempDir] reports success and changes nothing. *)
Lemma blocked_cwd_kept :
  initTempDir (sample_world ["otel"; "go"; "build"] quiet quiet quiet)
    (set_rp PPreprocess (initial_state blocked_cwd))
  = (Val None, set_rp PPreprocess (initial_state blocked_cwd)).
Proof. vm_compute. reflexivity. Qed.

Lemma blocked_cwd_not_clean :
  ¬ workspace_clean (sample_world ["otel"; "go"; "build"] quiet quiet quiet) blocked_cwd.
Proof.
  intros [H _]. vm_compute in H. discriminate H.
Qed.

(** In the [Preprocess] phase, on a workspace in which an earlier run
    left a file in a read-only directory, two calls of [initTempDir] in a
    row both report success, and the subdirectory of the preprocess phase
    is not empty after either. *)
Lemma initTempDir_idempotent_counterexample :
  rp (set_rp PPreprocess (initial_state locked_cwd)) ≠ PInstrument
  ∧ ∃ st1 st2,
      initTempDir (sample_world ["otel"; "go"; "build"] quiet quiet quiet)
        (set_rp PPreprocess (initial_state locked_cwd)) = (Val None, st1)
      ∧ ¬ workspace_clean (sample_world ["otel"; "go"; "build"] quiet quiet quiet) (fs st1)
      ∧ initTempDir (sample_world ["otel"; "go"; "build"] quiet quiet quiet) st1
        = (Val None, st2)
      ∧ ¬ workspace_clean (sample_world ["otel"; "go"; "build"] quiet quiet quiet) (fs st2).
Proof.
  split; [done |].
  eexists _, _. split; [exact locked_cwd_kept |].
  split; [exact locked_cwd_not_clean |].
  split; [vm_compute; reflexivity |].
  exact locked_cwd_not_clean.
Qed.

(** What [initTempDir] returns outside the [Instrument] phase. *)
Lemma initTempDir_cases (W : World) (st : State) :
  rp st ≠ PInstrument →
  match os.lookup_path (util_TempBuildDir W) (fs st),
        os.mkdir_all [] (util_TempBuildDir W) (fs st) with
  | None, (Some e, n1) =>
      ∃ p stack,
        initTempDir W st
        = (Val (Some (ErrPlentiful p)),
           set_heap (<[p := mkPlentifulError (os.PathError_Error e) stack (Some ∅)]> (heap st))
             (set_fs n1 st))
  | _, _ => ∃ n', initTempDir W st = (Val None, set_fs n' st)
  end.
Proof.
  intros Hrp.
  destruct (os.lookup_path (util_TempBuildDir W) (fs st)) as [d|] eqn:Hroot.
  - destruct (initTempDir_present W st d Hrp Hroot) as (n' & Hrun & _). by exists n'.
  - destruct (os.mkdir_all [] (util_TempBuildDir W) (fs st)) as [[e|] n1] eqn:Hmk.
    + destruct (initTempDir_not_made W st e n1 Hrp Hroot Hmk) as (p & stack & Hrun & _).
      by exists p, stack.
    + destruct (initTempDir_made W st n1 Hrp Hroot Hmk) as (n' & Hrun & _). by exists n'.
Qed.

(** C10. Outside the [Instrument] phase the loop of [initTempDir] drops
    what the removals and the makings of the two named subdirectories
    return, so [initTempDir] always returns, and returns an error exactly
    when the root of the workspace is missing and cannot be made; the
    error then says why. There are states in which it returns without an
    error although a named subdirectory is missing or not empty
    afterwards. *)
Theorem initTempDir_drops_results :
  (∀ (W : World) (st : State),
     rp st ≠ PInstrument →
     (∀ name st0, ∃ n', resetSubdir W name st0 = (Val tt, set_fs n' st0))
     ∧ match initTempDir W st with
       | (Val (Some err), st') =>
           os.lookup_path (util_TempBuildDir W) (fs st) = None
           ∧ ∃ e p pe,
               (os.mkdir_all [] (util_TempBuildDir W) (fs st)).1 = Some e
               ∧ err = ErrPlentiful p
               ∧ heap st' !! p = Some pe
               ∧ Reason pe = os.PathError_Error e
       | (Val None, _) =>
           is_Some (os.lookup_path (util_TempBuildDir W) (fs st))
           ∨ (os.mkdir_all [] (util_TempBuildDir W) (fs st)).1 = None
       | (Halt _, _) => False
       end)
  ∧ (∃ (W : World) (st st' : State),
       rp st ≠ PInstrument
       ∧ initTempDir W st = (Val None, st')
       ∧ os.lookup_path (util.GetTempBuildDirWith W (util_PPreprocess W)) (fs st') = None)
  ∧ (∃ (W : World) (st st' : State),
       rp st ≠ PInstrument
       ∧ initTempDir W st = (Val None, st')
       ∧ ∃ w es,
           os.lookup_path (util.GetTempBuildDirWith W (util_PPreprocess W)) (fs st')
           = Some (Dir w es)
           ∧ es ≠ ∅).
Proof.
  split; [| split].
  - intros W st Hrp. split; [intros name st0; apply resetSubdir_total |].
    pose proof (initTempDir_cases W st Hrp) as Hcases.
    destruct (os.lookup_path (util_TempBuildDir W) (fs st)) as [d|] eqn:Hroot.
    + destruct Hcases as (n' & ->). left. by eexists.
    + destruct (os.mkdir_all [] (util_TempBuildDir W) (fs st)) as [[e|] n1] eqn:Hmk.
      * destruct Hcases as (p & stack & ->). split; [done |].
        exists e, p. eexists. split; [done |]. split; [done |].
        split; [simpl; apply lookup_insert_eq | done].
      * destruct Hcases as (n' & ->). by right.
  - exists (sample_world ["otel"; "go"; "build"] quiet quiet quiet),
      (set_rp PPreprocess (initial_state blocked_cwd)).
    eexists. split; [done |]. split; [exact blocked_cwd_kept |]. vm_compute. reflexivity.
  - exists (sample_world ["otel"; "go"; "build"] quiet quiet quiet),
      (set_rp PPreprocess (initial_state locked_cwd)).
    eexists. split; [done |]. split; [exact locked_cwd_kept |].
    exists true, {[ "cache" := Dir false {[ "old.o" := File ]} ]}.
    split; [vm_compute; reflexivity |].
    apply insert_non_empty.
Qed.

(** In a working directory that cannot be written: the root of the
    workspace cannot be made, and the error says so. *)
Lemma initTempDir_drops_results_witness :
  rp (initial_state (Dir false ∅)) ≠ PInstrument
  ∧ match initTempDir (sample_world ["otel"; "go"; "build"] quiet quiet quiet)
            (initial_state (Dir false ∅)) with
    | (Val (Some err), st') =>
        os.lookup_path [".otel-build"] (Dir false ∅) = None
        ∧ ∃ e p pe,
            (os.mkdir_all [] [".otel-build"] (Dir false ∅)).1 = Some e
            ∧ err = ErrPlentiful p
            ∧ heap st' !! p = Some pe
            ∧ Reason pe = os.PathError_Error e
    | (Val None, _) =>
        is_Some (os.lookup_path [".otel-build"] (Dir false ∅))
        ∨ (os.mkdir_all [] [".otel-build"] (Dir false ∅)).1 = None
    | (Halt _, _) => False
    end.
Proof.
  assert (H : rp (initial_state (Dir false ∅)) ≠ PInstrument) by done.
  split; [exact H |].
  exact (proj2 (proj1 initTempDir_drops_results
                  (sample_world ["otel"; "go"; "build"] quiet quiet quiet)
                  (initial_state (Dir false ∅)) H)).
Defined.

(** The error made when the root of the workspace cannot be made. *)
Example initTempDir_unwritable :
  (initTempDir (sample_world ["otel"; "go"; "build"] quiet quiet quiet)
     (initial_state (Dir false ∅)))
  = (Val (Some (ErrPlentiful 1)),
     set_heap {[ 1%positive :=
                   mkPlentifulError "mkdir .otel-build: permission denied"
                     "goroutine 1 [running]:" (Some ∅) ]}
       (initial_state (Dir false ∅))).
Proof. vm_compute. reflexivity. Qed.

(** * Further properties of the error values *)

(** X1. [New] never fails, whatever the state. The error it returns sits at
    an address that was not in use, has the message as its reason, the
    stack trace of the moment as its cause and a map of details that is
    made and empty; every error that was there before is as it was, and
    nothing else of the state changes. Its text is the message, a
    newline, and the stack trace. *)
Theorem New_fresh_error (W : World) (st : State) (message : string) :
  ∃ p stack,
    errc.New W message st
    = (Val p, set_heap (<[p := mkPlentifulError message stack (Some ∅)]> (heap st)) st)
    ∧ heap st !! p = None
    ∧ stack = debug_Stack W
                (set_heap (<[p := mkPlentifulError message "" (Some ∅)]> (heap st)) st)
    ∧ (∀ q e, heap st !! q = Some e →
         <[p := mkPlentifulError message stack (Some ∅)]> (heap st) !! q = Some e)
    ∧ (errc.Error p
         (set_heap (<[p := mkPlentifulError message stack (Some ∅)]> (heap st)) st)).1
      = Val (message ++ fmt.nl ++ stack).
Proof.
  exists (fresh (dom (heap st))).
  eexists. split; [| split; [| split; [| split]]].
  - unfold errc.New, errc.alloc, errc.store, errc.deref. run_M.
    rewrite lookup_insert_eq. simpl. rewrite insert_insert_eq. reflexivity.
  - apply not_elem_of_dom, is_fresh.
  - reflexivity.
  - intros q e Hq. rewrite lookup_insert_ne; [done |].
    intros <-. pose proof (is_fresh (dom (heap st))) as Hfresh.
    apply Hfresh, elem_of_dom. by eexists.
  - unfold errc.Error, errc.deref. run_M. by rewrite lookup_insert_eq.
Qed.

(** X2. The details are no part of the text of an error: after a successful
    [Adhere], and so after a successful [With], every error, the
    annotated one included, renders as it did before. *)
Theorem Adhere_keeps_text (st st' : State) (err r : option error)
    (key value : string) :
  errc.Adhere err key value st = (Val r, st') →
  ∀ e : error, (error_Error e st').1 = (error_Error e st).1.
Proof.
  intros Hrun e.
  destruct err as [[p | f]|]; simpl in Hrun; try (injection Hrun as <- <-; done).
  unfold errc.set_detail, errc.deref, errc.store in Hrun. run_M.
  destruct (heap st !! p) as [pe|] eqn:Hp; [| done]. simpl in Hrun.
  destruct (Details pe) as [d|] eqn:Hd; [| done]. simpl in Hrun.
  injection Hrun as <- <-.
  destruct e as [q | f]; [| done].
  unfold error_Error, errc.Error, errc.deref, mbind, M_bind. simpl.
  rewrite lookup_insert. case_decide as Heq.
  - subst q. rewrite Hp. done.
  - destruct (heap st !! q); done.
Qed.

(** At the error of the failed link step. *)
Lemma Adhere_keeps_text_witness :
  ∃ st',
    errc.Adhere (Some (ErrPlentiful 1)) "package" "main" link_error_state
    = (Val (Some (ErrPlentiful 1)), st')
    ∧ (error_Error (ErrPlentiful 1) st').1
      = (error_Error (ErrPlentiful 1) link_error_state).1.
Proof.
  eexists. split; [vm_compute; reflexivity |].
  apply (Adhere_keeps_text link_error_state _ (Some (ErrPlentiful 1))
           (Some (ErrPlentiful 1)) "package" "main").
  vm_compute. reflexivity.
Defined.

(** X3. Two annotations can be made in either order when they go to
    different errors or under different keys: both orders succeed and
    end in the same state. *)
Theorem With_commute (st : State) (p1 p2 : loc) (e1 e2 : PlentifulError)
    (d1 d2 : gmap string string) (k1 v1 k2 v2 : string) :
  heap st !! p1 = Some e1 → Details e1 = Some d1 →
  heap st !! p2 = Some e2 → Details e2 = Some d2 →
  p1 ≠ p2 ∨ k1 ≠ k2 →
  ∃ st',
    (errc.With p1 k1 v1;; errc.With p2 k2 v2) st = (Val p2, st')
    ∧ (errc.With p2 k2 v2;; errc.With p1 k1 v1) st = (Val p1, st').
Proof.
  intros H1 Hd1 H2 Hd2 Hne.
  unfold mbind, M_bind.
  rewrite (With_run st p1 e1 d1 k1 v1 H1 Hd1), (With_run st p2 e2 d2 k2 v2 H2 Hd2).
  destruct (decide (p1 = p2)) as [-> | Hp].
  - assert (e1 = e2) as -> by congruence. assert (d1 = d2) as -> by congruence.
    destruct Hne as [? | Hk]; [done |].
    erewrite !With_run; [| apply lookup_insert_eq | done | apply lookup_insert_eq | done].
    simpl. rewrite !insert_insert_eq. eexists. split; [reflexivity |].
    by rewrite (insert_insert_ne _ k1 k2).
  - erewrite !With_run;
      [| simpl; by rewrite lookup_insert_ne | done
       | simpl; by rewrite lookup_insert_ne | done].
    simpl. eexists. split; [reflexivity |].
    by rewrite (insert_insert_ne _ p1 p2).
Qed.

(** At the error of the failed link step, annotated under two keys. *)
Lemma With_commute_witness :
  ∃ st',
    (errc.With 1 "package" "main";; errc.With 1 "file" "main.go") link_error_state
    = (Val 1%positive, st')
    ∧ (errc.With 1 "file" "main.go";; errc.With 1 "package" "main") link_error_state
      = (Val 1%positive, st').
Proof.
  apply (With_commute link_error_state 1 1 link_error link_error
           {[ "stage" := "link" ]} {[ "stage" := "link" ]}).
  - reflexivity.
  - reflexivity.
  - reflexivity.
  - reflexivity.
  - right. discriminate.
Defined.



(** X5. An error made by [New] can be annotated at once, and again: the
    chain [New(m).With(k1, v1).With(k2, v2)] never fails, in any state,
    and yields a new error with reason [m] whose details are the two
    pairs, the later one winning when the keys are the same. *)
Theorem New_With_chain (W : World) (st : State) (message k1 v1 k2 v2 : string) :
  ∃ p stack,
    (e ← errc.New W message; e ← errc.With e k1 v1; errc.With e k2 v2) st
    = (Val p,
       set_heap (<[p := mkPlentifulError message stack
                          (Some (<[k2 := v2]> {[ k1 := v1 ]}))]> (heap st)) st)
    ∧ heap st !! p = None.
Proof.
  destruct (New_run W st message) as (p & stack & Hnew & Hfresh).
  exists p, stack. split; [| done].
  unfold mbind at 1. unfold M_bind at 1. rewrite Hnew.
  unfold mbind at 1. unfold M_bind at 1.
  erewrite With_run; [| apply lookup_insert_eq | done]. simpl.
  erewrite With_run; [| simpl; apply lookup_insert_eq | done]. simpl.
  by rewrite !insert_insert_eq.
Qed.

(** X6. Every operation of the package keeps the maps of details made: if
    each error object in the store has a map of details that is made,
    this is still so after [New], after [With] and after [Adhere],
    whenever they return. So an error that came out of [New] can always be
    annotated. *)
Theorem errc_keeps_details_made (W : World) (st st' : State) :
  details_made st →
  (∀ message p, errc.New W message st = (Val p, st') → details_made st')
  ∧ (∀ pe key value p, errc.With pe key value st = (Val p, st') → details_made st')
  ∧ (∀ err key value r, errc.Adhere err key value st = (Val r, st') → details_made st').
Proof.
  intros Hok. split; [| split].
  - intros message p. by apply New_details_made.
  - intros pe key value p. by apply With_details_made.
  - intros [[pe | f]|] key value r Hrun; simpl in Hrun;
      try (injection Hrun as _ <-; done).
    apply (With_details_made st st' pe pe key value Hok).
    unfold errc.With. run_M.
    destruct (errc.set_detail pe key value st) as [[[]|o] st1]; [| done].
    by injection Hrun as _ <-.
Qed.

(** From the state that holds the error of the failed link step. *)
Lemma errc_keeps_details_made_witness :
  details_made link_error_state
  ∧ details_made
      (errc.New (sample_world [] quiet quiet quiet) "compile failed" link_error_state).2.
Proof.
  split; [exact link_error_state_made |].
  apply (proj1 (errc_keeps_details_made (sample_world [] quiet quiet quiet)
                  link_error_state
                  (errc.New (sample_world [] quiet quiet quiet) "compile failed"
                     link_error_state).2
                  link_error_state_made)
           "compile failed" 2%positive).
  vm_compute. reflexivity.
Defined.

Lemma concat_nosep_cons (x : string) (xs : list string) :
  String.concat "" (x :: xs) = x ++ String.concat "" xs.
Proof. destruct xs; simpl; [by rewrite append_empty_r | done]. Qed.

Lemma concat_nosep_split (l1 l2 : list string) (x : string) :
  String.concat "" (l1 ++ x :: l2)
  = String.concat "" l1 ++ x ++ String.concat "" l2.
Proof.
  induction l1 as [|y l1 IH].
  - apply concat_nosep_cons.
  - change ((y :: l1) ++ x :: l2)%list with (y :: (l1 ++ x :: l2))%list.
    by rewrite !concat_nosep_cons, IH, append_assoc.
Qed.

(** X7. What [Adhere] attaches is what [fatal] shows: after a pair has been
    attached to a [PlentifulError], the report of that error has the line
    of the pair among its lines of details. *)
Theorem Adhere_shows_in_report (W : World) (st : State) (p : loc)
    (e : PlentifulError) (key value : string) :
  range_fair W →
  details_made st →
  heap st !! p = Some e →
  ∃ st' before after,
    errc.Adhere (Some (ErrPlentiful p)) key value st
    = (Val (Some (ErrPlentiful p)), st')
    ∧ @fatal W unit (Some (ErrPlentiful p)) st'
      = (Halt (LogFatal
           (environment_block W
            ++ before ++ (pad11 key ++ ": " ++ value ++ fmt.nl) ++ after
            ++ fatal_header ++ fmt.nl ++ Reason e)), st').
Proof.
  intros Hfair Hok Hp. destruct (Hok p e Hp) as [d Hd].
  set (e' := mkPlentifulError (Reason e) (Cause e) (Some (<[key := value]> d))).
  set (st' := set_heap (<[p := e']> (heap st)) st).
  assert (Hin : (key, value) ∈ visited_details W e').
  { rewrite (visited_details_fair W e' Hfair). simpl.
    apply elem_of_map_to_list, lookup_insert_eq. }
  apply list_elem_of_split in Hin as (l1 & l2 & Hsplit).
  exists st', (String.concat "" (map detail_line l1)),
    (String.concat "" (map detail_line l2)).
  split.
  - unfold errc.Adhere. run_M. by rewrite (set_detail_run _ _ _ _ _ _ Hp Hd).
  - rewrite (fatal_plentiful_run W st' p e') by apply lookup_insert_eq.
    rewrite Hsplit, map_app. simpl map. rewrite concat_nosep_split.
    unfold detail_line at 2. simpl. by rewrite !append_assoc.
Qed.

(** At the error of the failed link step. *)
Lemma Adhere_shows_in_report_witness :
  ∃ st' before after,
    errc.Adhere (Some (ErrPlentiful 1)) "package" "main" link_error_state
    = (Val (Some (ErrPlentiful 1)), st')
    ∧ @fatal (sample_world ["otel"; "go"; "build"] quiet quiet quiet) unit
        (Some (ErrPlentiful 1)) st'
      = (Halt (LogFatal
           (environment_block (sample_world ["otel"; "go"; "build"] quiet quiet quiet)
            ++ before ++ (pad11 "package" ++ ": " ++ "main" ++ fmt.nl) ++ after
            ++ fatal_header ++ fmt.nl ++ "link error")), st').
Proof.
  apply (Adhere_shows_in_report
           (sample_world ["otel"; "go"; "build"] quiet quiet quiet)
           link_error_state 1 link_error "package" "main").
  - intros m. reflexivity.
  - exact link_error_state_made.
  - reflexivity.
Defined.

(** * Further properties of the entry point *)

(** [fatal] does not return and does not touch the state. *)
Lemma fatal_halts {A} (W : World) (err : option error) (st : State) :
  ∃ o, @fatal W A err st = (Halt o, st).
Proof.
  destruct err as [[p | f]|].
  - destruct (heap st !! p) as [e|] eqn:Hp.
    + eexists. by apply fatal_plentiful_run.
    + eexists. unfold fatal, errc.deref. run_M. rewrite Hp. reflexivity.
  - eexists. apply fatal_foreign_run.
  - eexists. reflexivity.
Qed.

(** X8. A remix invocation prepares nothing but the configuration: [initEnv]
    sets the phase to [Instrument], leaves the workspace alone, and is
    from there on [config.InitConfig], whose result it returns. *)
Theorem initEnv_remix_only_config (W : World) (st : State) (tool : string)
    (rest : list string) :
  os_Args W = tool :: "remix" :: rest →
  initEnv W st = config_InitConfig W (set_rp PInstrument st).
Proof.
  intros Hargs. rewrite (initEnv_remix W st tool rest Hargs).
  destruct (config_InitConfig W (set_rp PInstrument st)) as [[[e|]|o] st']; done.
Qed.

(** With a handler of the configuration that fails. *)
Lemma initEnv_remix_only_config_witness :
  initEnv (sample_world ["otel"; "remix"] (raise_plentiful compile_error) quiet quiet)
    (initial_state stale_cwd)
  = raise_plentiful compile_error (set_rp PInstrument (initial_state stale_cwd)).
Proof.
  apply (initEnv_remix_only_config
           (sample_world ["otel"; "remix"] (raise_plentiful compile_error) quiet quiet)
           (initial_state stale_cwd) "otel" []).
  reflexivity.
Defined.

(** [initTempDir] leaves the run phase as it is. *)
Lemma initTempDir_keeps_phase (W : World) (st st' : State) (r : result (option error)) :
  initTempDir W st = (r, st') → rp st' = rp st.
Proof.
  intros Hrun. destruct (decide (rp st = PInstrument)) as [Hrp | Hrp].
  - rewrite (initTempDir_skipped W st Hrp) in Hrun. by injection Hrun as _ <-.
  - pose proof (initTempDir_cases W st Hrp) as Hcases.
    destruct (os.lookup_path (util_TempBuildDir W) (fs st)) as [d|].
    + destruct Hcases as (n' & Heq). rewrite Heq in Hrun. by injection Hrun as _ <-.
    + destruct (os.mkdir_all [] (util_TempBuildDir W) (fs st)) as [[e|] n1].
      * destruct Hcases as (p & stack & Heq). rewrite Heq in Hrun. by injection Hrun as _ <-.
      * destruct Hcases as (n' & Heq). rewrite Heq in Hrun. by injection Hrun as _ <-.
Qed.

(** X9. A command that needs no phase, such as [version] or [set], loads no
    configuration, but its workspace is prepared all the same: when the
    first argument neither ends with [go] nor is [remix], and no phase has
    been set, [initEnv] is [initTempDir] and [config.InitConfig] is not
    run. *)
Theorem initEnv_without_phase (W : World) (st : State) (tool arg : string)
    (rest : list string) :
  os_Args W = tool :: arg :: rest →
  HasSuffix arg "go" = false →
  arg ≠ "remix" →
  rp st = PUnset →
  initEnv W st = initTempDir W st.
Proof.
  intros Hargs Hgo Hremix Hrp. unfold initEnv.
  unfold mbind at 1 2. unfold M_bind at 1 2.
  rewrite Hargs. simpl.
  rewrite (determinePhase_run W st tool arg rest Hargs).
  unfold SubcommandGo, SubcommandRemix. rewrite Hgo.
  apply String.eqb_neq in Hremix. rewrite Hremix. simpl.
  unfold mbind, M_bind.
  destruct (initTempDir W st) as [[[e|]|o] st'] eqn:Hrun; [done | | done].
  apply initTempDir_keeps_phase in Hrun.
  unfold util.InPreprocess, util.InInstrument, util.GetRunPhase. run_M.
  rewrite Hrun, Hrp. done.
Qed.

(** The command [version] in a fresh working directory. *)
Lemma initEnv_without_phase_witness :
  initEnv (sample_world ["otel"; "version"] (raise_plentiful compile_error) quiet quiet)
    (initial_state (Dir true ∅))
  = initTempDir (sample_world ["otel"; "version"] (raise_plentiful compile_error) quiet quiet)
      (initial_state (Dir true ∅)).
Proof.
  apply (initEnv_without_phase
           (sample_world ["otel"; "version"] (raise_plentiful compile_error) quiet quiet)
           (initial_state (Dir true ∅)) "otel" "version" []).
  - reflexivity.
  - reflexivity.
  - discriminate.
  - reflexivity.
Defined.

(** X10. For a first argument that ends with [go], [initEnv] sets the phase to
    [Preprocess] and prepares the workspace; the configuration is loaded
    after that and only if that went well. An error of [initTempDir] is
    returned as it is, and the result of [config.InitConfig] likewise. *)
Theorem initEnv_preprocess (W : World) (st : State) (tool arg : string)
    (rest : list string) :
  os_Args W = tool :: arg :: rest →
  HasSuffix arg "go" = true →
  initEnv W st
  = match initTempDir W (set_rp PPreprocess st) with
    | (Val None, st1) => config_InitConfig W st1
    | failed => failed
    end.
Proof.
  intros Hargs Hgo. unfold initEnv.
  unfold mbind at 1 2. unfold M_bind at 1 2.
  rewrite Hargs. simpl.
  rewrite (determinePhase_run W st tool arg rest Hargs).
  unfold SubcommandGo. rewrite Hgo. simpl.
  unfold mbind, M_bind.
  destruct (initTempDir W (set_rp PPreprocess st)) as [[[e|]|o] st'] eqn:Hrun;
    [done | | done].
  apply initTempDir_keeps_phase in Hrun.
  unfold util.InPreprocess, util.InInstrument, util.GetRunPhase. run_M.
  rewrite Hrun. simpl.
  destruct (config_InitConfig W st') as [[[e|]|o] st'']; done.
Qed.

(** The command [go build] with a configuration that cannot be loaded,
    in a fresh working directory. *)
Lemma initEnv_preprocess_witness :
  initEnv (sample_world ["otel"; "go"; "build"] (raise_plentiful compile_error) quiet quiet)
    (initial_state (Dir true ∅))
  = match initTempDir
            (sample_world ["otel"; "go"; "build"] (raise_plentiful compile_error) quiet quiet)
            (set_rp PPreprocess (initial_state (Dir true ∅))) with
    | (Val None, st1) => raise_plentiful compile_error st1
    | failed => failed
    end.
Proof.
  apply (initEnv_preprocess
           (sample_world ["otel"; "go"; "build"] (raise_plentiful compile_error) quiet quiet)
           (initial_state (Dir true ∅)) "otel" "go" ["build"]).
  - reflexivity.
  - reflexivity.
Defined.

(** X11. When [initEnv] fails, [main] ends in [fatal] with the error of
    [initEnv], in the state [initEnv] left: no handler is run and no
    usage text is printed, whatever the sub-command, [remix] included. *)
Theorem main_initEnv_failure (W : World) (st st1 : State) (e : error) :
  initEnv W st = (Val (Some e), st1) →
  ∃ o,
    @fatal W unit (Some e) st1 = (Halt o, st1)
    ∧ run W st = (o, st1).
Proof.
  intros Hinit. destruct (@fatal_halts unit W (Some e) st1) as [o Ho].
  exists o. split; [done |].
  unfold run, main. destruct (length (os_Args W) <? 2)%nat eqn:Hlen.
  - exfalso. unfold initEnv in Hinit.
    unfold mbind at 1 in Hinit. unfold M_bind at 1 in Hinit.
    apply Nat.ltb_lt in Hlen.
    assert (Hle : (2 <=? length (os_Args W))%nat = false) by (apply Nat.leb_gt; lia).
    rewrite Hle in Hinit. done.
  - unfold mbind at 1. unfold M_bind at 1. rewrite Hinit.
    unfold mbind at 1. unfold M_bind at 1. by rewrite Ho.
Qed.

(** A [remix] run whose configuration cannot be loaded ends in the fatal
    report, not in the bare message on the error stream. *)
Lemma main_initEnv_failure_witness :
  ∃ o st1,
    run (sample_world ["otel"; "remix"] (raise_plentiful compile_error) quiet quiet)
      (initial_state (Dir true ∅)) = (o, st1)
    ∧ stderr st1 = ""
    ∧ @fatal (sample_world ["otel"; "remix"] (raise_plentiful compile_error) quiet quiet)
        unit (Some (ErrPlentiful 1)) st1 = (Halt o, st1).
Proof.
  destruct (main_initEnv_failure
              (sample_world ["otel"; "remix"] (raise_plentiful compile_error) quiet quiet)
              (initial_state (Dir true ∅))
              (set_heap {[ 1%positive := compile_error ]}
                 (set_rp PInstrument (initial_state (Dir true ∅))))
              (ErrPlentiful 1)) as (o & Ho & Hrun).
  - vm_compute. reflexivity.
  - exists o. eexists. split; [exact Hrun |]. split; [reflexivity | exact Ho].
Defined.

(** The handlers of the sub-commands, as the [switch] of [main] picks
    them. *)
Lemma main_handler_run (W : World) (st st1 : State) (tool sub : string)
    (rest : list string) (h : M (option error)) :
  os_Args W = tool :: sub :: rest →
  (sub, h) ∈ [(SubcommandVersion, config_PrintVersion W);
              (SubcommandSet, config_Configure W);
              (SubcommandGo, preprocess_Preprocess W)] →
  initEnv W st = (Val None, st1) →
  run W st
  = match h st1 with
    | (Val None, st2) => (Exit 0, st2)
    | (Val (Some e), st2) =>
        match @fatal W unit (Some e) st2 with
        | (Val _, st3) => (Exit 0, st3)
        | (Halt o, st3) => (o, st3)
        end
    | (Halt o, st2) => (o, st2)
    end.
Proof.
  intros Hargs Hin Hinit. unfold run, main. rewrite Hargs. simpl.
  unfold mbind at 1. unfold M_bind at 1. rewrite Hinit. simpl.
  unfold os_Args_at. rewrite Hargs. simpl.
  unfold mbind, M_bind. simpl.
  rewrite !elem_of_cons in Hin.
  destruct Hin as [[= -> ->] | [[= -> ->] | [[= -> ->] | Hin]]];
    [| | | by apply elem_of_nil in Hin]; simpl.
  - destruct (config_PrintVersion W st1) as [[[e|]|o] st2]; simpl; try done.
    all: by destruct (@fatal W unit (Some e) st2) as [[[]|o] st3].
  - destruct (config_Configure W st1) as [[[e|]|o] st2]; simpl; try done.
    all: by destruct (@fatal W unit (Some e) st2) as [[[]|o] st3].
  - destruct (preprocess_Preprocess W st1) as [[[e|]|o] st2]; simpl; try done.
    all: by destruct (@fatal W unit (Some e) st2) as [[[]|o] st3].
Qed.

(** X12. After a handler has done its work without an error, [main] does
    nothing more: the process ends with status 0 in the state the handler
    left, for each of [version], [set], [go] and [remix]. *)
Theorem main_handler_success (W : World) (st st1 st2 : State) (tool sub : string)
    (rest : list string) (h : M (option error)) :
  os_Args W = tool :: sub :: rest →
  (sub, h) ∈ [(SubcommandVersion, config_PrintVersion W);
              (SubcommandSet, config_Configure W);
              (SubcommandGo, preprocess_Preprocess W);
              (SubcommandRemix, instrument_Instrument W)] →
  initEnv W st = (Val None, st1) →
  h st1 = (Val None, st2) →
  run W st = (Exit 0, st2).
Proof.
  intros Hargs Hin Hinit Hh.
  rewrite !elem_of_cons in Hin.
  destruct Hin as [Hin | [Hin | [Hin | [[= -> ->] | Hin]]]];
    [| | | | by apply elem_of_nil in Hin].
  1-3: rewrite (main_handler_run W st st1 tool sub rest h Hargs) by
         (try done; rewrite !elem_of_cons; tauto); by rewrite Hh.
  unfold run, main. rewrite Hargs. simpl.
  unfold mbind at 1. unfold M_bind at 1. rewrite Hinit. simpl.
  unfold os_Args_at. rewrite Hargs. simpl.
  unfold mbind, M_bind. simpl. by rewrite Hh.
Qed.

(** The command [version] in a fresh working directory. *)
Lemma main_handler_success_witness :
  ∃ st2,
    run (sample_world ["otel"; "version"] quiet quiet quiet) (initial_state (Dir true ∅))
    = (Exit 0, st2)
    ∧ stdout st2 = "".
Proof.
  exists (initTempDir (sample_world ["otel"; "version"] quiet quiet quiet)
            (initial_state (Dir true ∅))).2.
  split; [| vm_compute; reflexivity].
  apply (main_handler_success
           (sample_world ["otel"; "version"] quiet quiet quiet)
           (initial_state (Dir true ∅))
           (initTempDir (sample_world ["otel"; "version"] quiet quiet quiet)
              (initial_state (Dir true ∅))).2
           _ "otel" "version" [] quiet).
  - reflexivity.
  - left.
  - vm_compute. reflexivity.
  - reflexivity.
Defined.

(** X13. When the handler of [version], [set] or [go] returns an error,
    [main] ends in [fatal] with that error, in the state the handler
    left. *)
Theorem main_handler_failure (W : World) (st st1 st2 : State) (tool sub : string)
    (rest : list string) (h : M (option error)) (e : error) :
  os_Args W = tool :: sub :: rest →
  (sub, h) ∈ [(SubcommandVersion, config_PrintVersion W);
              (SubcommandSet, config_Configure W);
              (SubcommandGo, preprocess_Preprocess W)] →
  initEnv W st = (Val None, st1) →
  h st1 = (Val (Some e), st2) →
  ∃ o,
    @fatal W unit (Some e) st2 = (Halt o, st2)
    ∧ run W st = (o, st2).
Proof.
  intros Hargs Hin Hinit Hh.
  destruct (@fatal_halts unit W (Some e) st2) as [o Ho].
  exists o. split; [done |].
  rewrite (main_handler_run W st st1 tool sub rest h Hargs Hin Hinit).
  by rewrite Hh, Ho.
Qed.

(** The command [go build] whose handler fails with an error of a type
    of its own. *)
Lemma main_handler_failure_witness :
  ∃ o st2,
    run (sample_world ["otel"; "go"; "build"] quiet
           (raise_foreign (mkForeignError 7 "exit status 2")) quiet)
      (initial_state (Dir true ∅)) = (o, st2)
    ∧ @fatal (sample_world ["otel"; "go"; "build"] quiet
                (raise_foreign (mkForeignError 7 "exit status 2")) quiet) unit
        (Some (ErrForeign (mkForeignError 7 "exit status 2"))) st2 = (Halt o, st2).
Proof.
  destruct (main_handler_failure
              (sample_world ["otel"; "go"; "build"] quiet
                 (raise_foreign (mkForeignError 7 "exit status 2")) quiet)
              (initial_state (Dir true ∅))
              (initEnv (sample_world ["otel"; "go"; "build"] quiet
                          (raise_foreign (mkForeignError 7 "exit status 2")) quiet)
                 (initial_state (Dir true ∅))).2
              (initEnv (sample_world ["otel"; "go"; "build"] quiet
                          (raise_foreign (mkForeignError 7 "exit status 2")) quiet)
                 (initial_state (Dir true ∅))).2
              "otel" "go" ["build"]
              (raise_foreign (mkForeignError 7 "exit status 2"))
              (ErrForeign (mkForeignError 7 "exit status 2"))) as (o & Ho & Hrun).
  - reflexivity.
  - right. right. left.
  - vm_compute. reflexivity.
  - reflexivity.
  - exists o. eexists. split; [exact Hrun | exact Ho].
Defined.

(** * Further properties of the workspace *)

Lemma diverge_cons_inv (p q : list string) :
  diverge p q = true → ∃ y q', q = y :: q'.
Proof. destruct p, q; try done. by eexists _, _. Qed.

Lemma diverge_snoc_inv (r : list string) (x : string) (q : list string) :
  diverge (r ++ [x]) q = true →
  diverge r q = true ∨ ∃ y q', q = (r ++ y :: q')%list ∧ y ≠ x.
Proof.
  revert q. induction r as [|c r IH]; intros q Hdiv.
  - destruct q as [|y q']; [done |]. simpl in Hdiv. right.
    exists y, q'. split; [done |]. by case_decide.
  - destruct q as [|y q']; [done |]. simpl in *. case_decide as Heq; [| by left].
    subst y. destruct (IH q' Hdiv) as [H | (y & q'' & -> & Hne)]; [by left |].
    right. by exists y, q''.
Qed.

(** [MkdirAll] changes nothing off its path. *)
Lemma mkdir_all_frame (pre p q : list string) (n : node) :
  diverge p q = true →
  os.lookup_path q (os.mkdir_all pre p n).2 = os.lookup_path q n.
Proof.
  revert pre q n. induction p as [|x p IH]; intros pre q n Hdiv; [done |].
  destruct q as [|y q]; [done |]. destruct n as [|w es]; [done |]. simpl in *.
  destruct (es !! x) as [child|] eqn:Hx.
  - specialize (IH (pre ++ [x])%list q child).
    destruct (os.mkdir_all (pre ++ [x]) p child) as [r child']. simpl in *.
    case_decide as Heq.
    + subst y. rewrite lookup_insert_eq, Hx. simpl. by apply IH.
    + by rewrite lookup_insert_ne.
  - destruct w; [| done].
    specialize (IH (pre ++ [x])%list q (Dir true ∅)).
    destruct (os.mkdir_all (pre ++ [x]) p (Dir true ∅)) as [r child']. simpl in *.
    case_decide as Heq.
    + subst y. rewrite lookup_insert_eq, Hx. simpl. rewrite (IH Hdiv).
      apply diverge_cons_inv in Hdiv as (z & q' & ->). done.
    + by rewrite lookup_insert_ne.
Qed.

(** [RemoveAll] changes nothing off its path. *)
Lemma remove_all_frame (whole p q : list string) (n : node) :
  diverge p q = true →
  os.lookup_path q (os.remove_all whole p n).2 = os.lookup_path q n.
Proof.
  revert q n. induction p as [|x p IH]; intros q n Hdiv; [done |].
  destruct q as [|y q]; [done |]. destruct n as [|w es]; [done |]. simpl in *.
  destruct (es !! x) as [child|] eqn:Hx; [| done].
  destruct p as [|x' p].
  - case_decide as Heq; [by destruct q |].
    destruct (w && os.removable (os.purge child)); simpl.
    + by rewrite lookup_delete_ne.
    + by rewrite lookup_insert_ne.
  - specialize (IH q child).
    destruct (os.remove_all whole (x' :: p) child) as [r child']. simpl in *.
    case_decide as Heq.
    + subst y. rewrite lookup_insert_eq, Hx. simpl. by apply IH.
    + by rewrite lookup_insert_ne.
Qed.

(** Making a directory that was not there puts nothing below it. *)
Lemma mkdir_all_nothing_below (pre root : list string) (y : string)
    (q : list string) (n : node) :
  os.lookup_path root n = None ∨ n = Dir true ∅ →
  os.lookup_path (root ++ y :: q) (os.mkdir_all pre root n).2 = None.
Proof.
  revert pre n. induction root as [|c r IH]; intros pre n Hn.
  - destruct Hn as [Hn | ->]; [done |]. simpl. by rewrite lookup_empty.
  - destruct n as [|w es]; [done |]. simpl.
    destruct (es !! c) as [child|] eqn:Hc.
    + specialize (IH (pre ++ [c])%list child).
      destruct (os.mkdir_all (pre ++ [c]) r child) as [res child']. simpl in *.
      rewrite lookup_insert_eq. simpl. apply IH.
      destruct Hn as [Hn | Hn].
      * left. by rewrite Hc in Hn.
      * injection Hn as -> ->. by rewrite lookup_empty in Hc.
    + destruct w.
      * specialize (IH (pre ++ [c])%list (Dir true ∅)).
        destruct (os.mkdir_all (pre ++ [c]) r (Dir true ∅)) as [res child']. simpl in *.
        rewrite lookup_insert_eq. simpl. apply IH. by right.
      * simpl. by rewrite Hc.
Qed.

(** Below a writable and empty directory [MkdirAll] cannot fail. *)
Lemma mkdir_all_empty_ok (pre p : list string) :
  (os.mkdir_all pre p (Dir true ∅)).1 = None.
Proof.
  revert pre. induction p as [|c p IH]; intros pre; [done |].
  simpl. rewrite lookup_empty. specialize (IH (pre ++ [c])%list).
  by destruct (os.mkdir_all (pre ++ [c]) p (Dir true ∅)).
Qed.

(** A [MkdirAll] that fails has made nothing. *)
Lemma mkdir_all_fail_same (pre p : list string) (n n' : node) (e : PathError) :
  os.mkdir_all pre p n = (Some e, n') → n' = n.
Proof.
  revert pre n n'. induction p as [|c p IH]; intros pre n n' Hrun.
  - destruct n; simpl in Hrun; [by injection Hrun as _ <- | done].
  - destruct n as [|w es]; simpl in Hrun; [by injection Hrun as _ <- |].
    destruct (es !! c) as [child|] eqn:Hc.
    + destruct (os.mkdir_all (pre ++ [c]) p child) as [r child'] eqn:Hrec.
      injection Hrun as -> <-. rewrite (IH _ _ _ Hrec). by rewrite insert_id.
    + destruct w; [| by injection Hrun as _ <-].
      pose proof (mkdir_all_empty_ok (pre ++ [c]) p) as Hok.
      destruct (os.mkdir_all (pre ++ [c]) p (Dir true ∅)) as [r child'].
      simpl in Hok. subst r. done.
Qed.

Lemma resetSubdir_frame (W : World) (st : State) (name : string) :
  ∃ n',
    resetSubdir W name st = (Val tt, set_fs n' st)
    ∧ ∀ q, diverge (util.GetTempBuildDirWith W name) q = true →
        os.lookup_path q n' = os.lookup_path q (fs st).
Proof.
  unfold resetSubdir, os.RemoveAll, os.MkdirAll. run_M.
  pose proof (remove_all_frame (util.GetTempBuildDirWith W name)
                (util.GetTempBuildDirWith W name)) as Hrm.
  pose proof (mkdir_all_frame [] (util.GetTempBuildDirWith W name)) as Hmk.
  destruct (os.remove_all _ _ (fs st)) as [r1 n1] eqn:E1. simpl.
  destruct (os.mkdir_all _ _ n1) as [r2 n2] eqn:E2. simpl.
  exists n2. split; [done |]. intros q Hdiv.
  specialize (Hmk q n1 Hdiv). specialize (Hrm q (fs st) Hdiv).
  unfold util.GetTempBuildDirWith in *. rewrite E2 in Hmk. rewrite E1 in Hrm.
  simpl in *. congruence.
Qed.

Lemma reset_loop_frame (W : World) (st : State) :
  ∃ n',
    for_each [util.phase_name W PPreprocess; util.phase_name W PInstrument]
      (resetSubdir W) st = (Val tt, set_fs n' st)
    ∧ ∀ q,
        diverge (util.GetTempBuildDirWith W (util_PPreprocess W)) q = true →
        diverge (util.GetTempBuildDirWith W (util_PInstrument W)) q = true →
        os.lookup_path q n' = os.lookup_path q (fs st).
Proof.
  simpl.
  destruct (resetSubdir_frame W st (util_PPreprocess W)) as (n1 & Hrun1 & Hf1).
  destruct (resetSubdir_frame W (set_fs n1 st) (util_PInstrument W)) as (n2 & Hrun2 & Hf2).
  exists n2. unfold mbind, M_bind, mret, M_ret. rewrite Hrun1, Hrun2.
  split; [done |]. intros q H1 H2. rewrite (Hf2 q H2). simpl. by apply Hf1.
Qed.

(** [initTempDir], step by step, outside the [Instrument] phase. *)
Lemma initTempDir_steps (W : World) (st : State) :
  rp st ≠ PInstrument →
  initTempDir W st
  = match os.lookup_path (util_TempBuildDir W) (fs st),
          os.mkdir_all [] (util_TempBuildDir W) (fs st) with
    | None, (Some e, n1) =>
        match errc.New W (os.PathError_Error e) (set_fs n1 st) with
        | (Val p, st') => (Val (Some (ErrPlentiful p)), st')
        | (Halt o, st') => (Halt o, st')
        end
    | None, (None, n1) =>
        match for_each [util.phase_name W PPreprocess; util.phase_name W PInstrument]
                (resetSubdir W) (set_fs n1 st) with
        | (Val _, st') => (Val None, st')
        | (Halt o, st') => (Halt o, st')
        end
    | Some _, _ =>
        match for_each [util.phase_name W PPreprocess; util.phase_name W PInstrument]
                (resetSubdir W) st with
        | (Val _, st') => (Val None, st')
        | (Halt o, st') => (Halt o, st')
        end
    end.
Proof.
  intros Hrp.
  unfold initTempDir, util.GetRunPhase, util.PathNotExists, os.MkdirAll.
  remember (for_each _ _) as loop eqn:Hl.
  remember (errc.New W) as new eqn:Hn.
  unfold mbind, M_bind, mret, M_ret, get. simpl.
  rewrite bool_decide_eq_false_2 by done.
  destruct (os.lookup_path (util_TempBuildDir W) (fs st)) as [d|] eqn:Hroot.
  - rewrite bool_decide_eq_false_2 by done. by destruct (loop st) as [[[]|o] st'].
  - rewrite bool_decide_eq_true_2 by done.
    destruct (os.mkdir_all [] (util_TempBuildDir W) (fs st)) as [[e|] n1]; simpl.
    + by destruct (new (os.PathError_Error e) (set_fs n1 st)) as [[p|o] st'].
    + by destruct (loop (set_fs n1 st)) as [[[]|o] st'].
Qed.

(** X14. [initTempDir] works on the two named subdirectories and on nothing
    else: in every phase, and whether it succeeds or not, whatever lies
    off the paths of the two subdirectories is after the call what it was
    before. This holds of everything outside the root of the workspace,
    and of what the root holds beside the two subdirectories. *)
Theorem initTempDir_frame (W : World) (st : State) (q : list string) :
  diverge (util.GetTempBuildDirWith W (util_PPreprocess W)) q = true →
  diverge (util.GetTempBuildDirWith W (util_PInstrument W)) q = true →
  os.lookup_path q (fs (initTempDir W st).2) = os.lookup_path q (fs st).
Proof.
  intros Hpre Hins.
  destruct (decide (rp st = PInstrument)) as [Hrp | Hrp].
  { by rewrite initTempDir_skipped. }
  assert (Hroot : ∀ n1 r,
    os.lookup_path (util_TempBuildDir W) (fs st) = None →
    os.mkdir_all [] (util_TempBuildDir W) (fs st) = (r, n1) →
    os.lookup_path q n1 = os.lookup_path q (fs st)).
  { intros n1 r Habsent Hmk.
    replace n1 with (os.mkdir_all [] (util_TempBuildDir W) (fs st)).2 by by rewrite Hmk.
    apply diverge_snoc_inv in Hpre as [Hdiv | (y & q' & -> & Hne)].
    - by apply mkdir_all_frame.
    - rewrite mkdir_all_nothing_below by by left.
      by rewrite lookup_path_app, Habsent. }
  rewrite (initTempDir_steps W st Hrp).
  destruct (os.lookup_path (util_TempBuildDir W) (fs st)) as [d|] eqn:Habsent.
  - destruct (reset_loop_frame W st) as (n' & -> & Hframe). simpl. by apply Hframe.
  - destruct (os.mkdir_all [] (util_TempBuildDir W) (fs st)) as [[e|] n1] eqn:Hmk.
    + destruct (New_run W (set_fs n1 st) (os.PathError_Error e)) as (p & stack & -> & _).
      simpl. by apply (Hroot n1 (Some e)).
    + destruct (reset_loop_frame W (set_fs n1 st)) as (n' & -> & Hframe). simpl.
      rewrite (Hframe q Hpre Hins). simpl. by apply (Hroot n1 None).
Qed.

(** In the workspace with the leftover that cannot be removed: a source
    file beside the workspace, and a file in the root of the workspace
    beside the two subdirectories. *)
Lemma initTempDir_frame_witness :
  os.lookup_path ["main.go"]
    (fs (initTempDir (sample_world ["otel"; "go"; "build"] quiet quiet quiet)
           (set_rp PPreprocess (initial_state locked_cwd))).2)
  = os.lookup_path ["main.go"] locked_cwd
  ∧ os.lookup_path [".otel-build"; "build.log"]
      (fs (initTempDir (sample_world ["otel"; "go"; "build"] quiet quiet quiet)
             (set_rp PPreprocess (initial_state locked_cwd))).2)
    = os.lookup_path [".otel-build"; "build.log"] locked_cwd.
Proof.
  split.
  - apply (initTempDir_frame (sample_world ["otel"; "go"; "build"] quiet quiet quiet)
             (set_rp PPreprocess (initial_state locked_cwd)) ["main.go"]);
      reflexivity.
  - apply (initTempDir_frame (sample_world ["otel"; "go"; "build"] quiet quiet quiet)
             (set_rp PPreprocess (initial_state locked_cwd)) [".otel-build"; "build.log"]);
      reflexivity.
Defined.

(** X15. When [initTempDir] returns an error, nothing has been made or
    removed: the directory tree, the phase and the two streams are as
    before. The error is a new [PlentifulError] without details, and the
    errors that were there before are untouched. *)
Theorem initTempDir_failure_leaves_tree (W : World) (st st' : State) (err : error) :
  initTempDir W st = (Val (Some err), st') →
  ∃ p pe,
    err = ErrPlentiful p
    ∧ heap st !! p = None
    ∧ Details pe = Some ∅
    ∧ st' = set_heap (<[p := pe]> (heap st)) st
    ∧ fs st' = fs st.
Proof.
  intros Hrun.
  destruct (decide (rp st = PInstrument)) as [Hrp | Hrp].
  { by rewrite initTempDir_skipped in Hrun. }
  rewrite (initTempDir_steps W st Hrp) in Hrun.
  destruct (os.lookup_path (util_TempBuildDir W) (fs st)) as [d|] eqn:Habsent.
  { destruct (reset_loop_total W st) as (n' & Hloop). by rewrite Hloop in Hrun. }
  destruct (os.mkdir_all [] (util_TempBuildDir W) (fs st)) as [[e|] n1] eqn:Hmk.
  - apply mkdir_all_fail_same in Hmk as ->.
    destruct (New_run W (set_fs (fs st) st) (os.PathError_Error e))
      as (p & stack & Hnew & Hfresh).
    rewrite Hnew in Hrun. injection Hrun as <- <-.
    exists p, (mkPlentifulError (os.PathError_Error e) stack (Some ∅)).
    split; [done |]. split; [done |]. split; [done |].
    split; [| done]. by destruct st.
  - destruct (reset_loop_total W (set_fs n1 st)) as (n' & Hloop). by rewrite Hloop in Hrun.
Qed.

(** In a working directory that cannot be written. *)
Lemma initTempDir_failure_leaves_tree_witness :
  ∃ st',
    initTempDir (sample_world ["otel"; "go"; "build"] quiet quiet quiet)
      (initial_state (Dir false ∅)) = (Val (Some (ErrPlentiful 1)), st')
    ∧ fs st' = Dir false ∅.
Proof.
  exists (initTempDir (sample_world ["otel"; "go"; "build"] quiet quiet quiet)
            (initial_state (Dir false ∅))).2.
  split; [vm_compute; reflexivity |].
  destruct (initTempDir_failure_leaves_tree
              (sample_world ["otel"; "go"; "build"] quiet quiet quiet)
              (initial_state (Dir false ∅))
              (initTempDir (sample_world ["otel"; "go"; "build"] quiet quiet quiet)
                 (initial_state (Dir false ∅))).2
              (ErrPlentiful 1))
    as (p & pe & _ & _ & _ & _ & Hfs).
  - vm_compute. reflexivity.
  - exact Hfs.
Defined.

(** The reset of one entry of the root leaves the other entries alone. *)
Lemma reset_entry_other (whole pre : list string) (name : string) (w : bool)
    (es : gmap string node) :
  ∃ es',
    reset_entry whole pre name (Dir w es) = Dir w es'
    ∧ ∀ other, other ≠ name → es' !! other = es !! other.
Proof.
  unfold reset_entry. simpl.
  destruct (es !! name) as [child|] eqn:Hc.
  - destruct (w && os.removable (os.purge child)) eqn:Hrm; simpl.
    + rewrite lookup_delete_eq. apply andb_true_iff in Hrm as [-> _]. simpl.
      eexists. split; [reflexivity |]. intros other Hne.
      rewrite lookup_insert_ne by done. by rewrite lookup_delete_ne.
    + rewrite lookup_insert_eq.
      destruct (os.purge child) as [|w' es']; simpl;
        (eexists; split; [reflexivity |]; intros other Hne;
         by rewrite !lookup_insert_ne).
  - simpl. rewrite Hc. destruct w; simpl.
    + eexists. split; [reflexivity |]. intros other Hne. by rewrite lookup_insert_ne.
    + by exists es.
Qed.

(** X16. The two named subdirectories are reset one by one, and a failure at
    one does not keep the other from being reset: in a workspace whose
    root is a writable directory, each named subdirectory whose contents
    can be removed, or that is not there, is there and empty after the
    call, whatever becomes of the other. *)
Theorem initTempDir_each_subdir (W : World) (st : State) (es : gmap string node)
    (name : string) :
  rp st ≠ PInstrument →
  os.lookup_path (util_TempBuildDir W) (fs st) = Some (Dir true es) →
  name ∈ [util_PPreprocess W; util_PInstrument W] →
  (∀ child, es !! name = Some child → os.removable (os.purge child) = true) →
  ∃ n',
    initTempDir W st = (Val None, set_fs n' st)
    ∧ os.lookup_path (util.GetTempBuildDirWith W name) n' = Some (Dir true ∅).
Proof.
  intros Hrp Hroot Hname Hpurge.
  destruct (initTempDir_present W st _ Hrp Hroot) as (n' & Hrun & Hlook).
  exists n'. split; [done |].
  unfold util.GetTempBuildDirWith. rewrite lookup_path_app, Hlook. simpl.
  unfold reset_root.
  destruct (decide (name = util_PInstrument W)) as [-> | Hne].
  - destruct (decide (util_PInstrument W = util_PPreprocess W)) as [Heq | Hne].
    + rewrite Heq in *.
      rewrite (reset_entry_writable _ _ _ es Hpurge).
      rewrite reset_entry_writable.
      * by rewrite lookup_insert_eq.
      * intros child. rewrite lookup_insert_eq. intros [= <-]. by rewrite purge_empty.
    + destruct (reset_entry_other
                  (util.GetTempBuildDirWith W (util_PPreprocess W)) (util_TempBuildDir W)
                  (util_PPreprocess W) true es) as (es1 & -> & Hother).
      rewrite reset_entry_writable; [by rewrite lookup_insert_eq |].
      intros child. rewrite (Hother _ Hne). apply Hpurge.
  - apply elem_of_cons in Hname as [-> | Hname];
      [| by apply list_elem_of_singleton in Hname].
    rewrite (reset_entry_writable _ _ _ es Hpurge).
    destruct (reset_entry_other
                (util.GetTempBuildDirWith W (util_PInstrument W)) (util_TempBuildDir W)
                (util_PInstrument W) true (<[util_PPreprocess W := Dir true ∅]> es))
      as (es2 & -> & Hother).
    rewrite (Hother _ Hne). by rewrite lookup_insert_eq.
Qed.

(** In the workspace in which the subdirectory of the preprocess phase
    holds a leftover that cannot be removed: the subdirectory of the
    instrument phase is made all the same. *)
Lemma initTempDir_each_subdir_witness :
  ∃ n',
    initTempDir (sample_world ["otel"; "go"; "build"] quiet quiet quiet)
      (set_rp PPreprocess (initial_state locked_cwd))
    = (Val None, set_fs n' (set_rp PPreprocess (initial_state locked_cwd)))
    ∧ os.lookup_path [".otel-build"; "instrument"] n' = Some (Dir true ∅).
Proof.
  apply (initTempDir_each_subdir
           (sample_world ["otel"; "go"; "build"] quiet quiet quiet)
           (set_rp PPreprocess (initial_state locked_cwd))
           {[ "preprocess" := Dir true {[ "cache" := Dir false {[ "old.o" := File ]} ]} ]}
           "instrument").
  - discriminate.
  - vm_compute. reflexivity.
  - right. left.
  - intros child Hc. vm_compute in Hc. discriminate Hc.
Defined.
